(** * JakubeIndex: a forest index over bit vectors under Hamming distance

    A shallow embedding of [src/cpp/jakubelib.h] at the instantiation the
    repository uses everywhere ([bindings.cpp], the doctest file):

      JakubeIndex<int, int32_t, Hamming, Kiss64Random<uint64_t>>

    so [S = int] and [T = int32_t] are both signed 32-bit integers.

    Every field of [Hamming::Node<int,int32_t>] and every header field of the
    file format is a 4-byte integer at a 4-byte boundary, and the node stride
    [_s = offsetof(Node, v) + f * sizeof(T)] is a multiple of 4.  Memory and
    files are therefore modelled as sequences of 32-bit words (host byte
    order on both sides); a word is the [Z] value of the [int] stored there. *)

From Stdlib Require Import String.
From Stdlib Require Import ZArith List Bool Lia.
From Stdlib Require Import QArith Qminmax.
From Stdlib Require Import Sorting.Sorted Permutation.
Import ListNotations.

Open Scope Z_scope.

(* ================================================================= *)
(** ** Machine integers *)

(** Conversion to [int] / [int32_t] (two's complement wrap-around). *)
Definition to_int (z : Z) : Z := (z + 2 ^ 31) mod 2 ^ 32 - 2 ^ 31.

(** Conversion to [size_t] / [unsigned long long] (64 bits). *)
Definition to_size_t (z : Z) : Z := z mod 2 ^ 64.

(** Conversion to [unsigned int]. *)
Definition to_uint (z : Z) : Z := z mod 2 ^ 32.

Definition INT_MAX : Z := 2 ^ 31 - 1.

Definition sizeof_S : Z := 4.
Definition sizeof_T : Z := 4.
Definition sizeof_int : Z := 4.

(** [#define JAKUBELIB_V_ARRAY_SIZE 65536] *)
Definition JAKUBELIB_V_ARRAY_SIZE : Z := 65536.

(* ================================================================= *)
(** ** Raw memory and node records *)

(** A block of memory, or a pointer into one: the word found at each word
    offset.  [struct Node { S n_descendants; S children[2]; T v[...]; }] puts
    [n_descendants] at word 0, [children[k]] at word [1 + k] and [v[k]] at
    word [3 + k]; [children[k]] for [k >= 2] is the same word as [v[k - 2]],
    which is how a group node stores its ids. *)
Definition Mem : Type := Z -> Z.

Definition offsetof_children : Z := 4.
Definition offsetof_v : Z := 12.

Definition Node : Type := Mem.

Definition n_descendants (n : Node) : Z := n 0.
Definition children (n : Node) (k : Z) : Z := n (offsetof_children / 4 + k).
Definition v (n : Node) : Mem := fun k => n (offsetof_v / 4 + k).

(** One store of a word. *)
Definition store (m : Mem) (a x : Z) : Mem :=
  fun b => if b =? a then x else m b.

(** [memcpy(dst + at, src, count words)]. *)
Definition memcpy (dst : Mem) (at_ : Z) (src : Mem) (count : Z) : Mem :=
  fun b => if (at_ <=? b) && (b <? at_ + count) then src (b - at_) else dst b.

Definition set_n_descendants (n : Node) (x : Z) : Node := store n 0 x.
Definition set_children (n : Node) (k x : Z) : Node :=
  store n (offsetof_children / 4 + k) x.
Definition set_v (n : Node) (k x : Z) : Node := store n (offsetof_v / 4 + k) x.

(** [get_node_ptr]: [(Node* )((uint8_t* )_nodes + _s * i)], as a word offset
    into the block. *)
Definition node_offset (_s i : Z) : Z := _s / 4 * i.

Definition get_node_ptr (_nodes : Mem) (_s i : Z) : Node :=
  fun k => _nodes (node_offset _s i + k).

(** A [const T*] argument handed in by a caller that owns a [std::vector<T>]. *)
Definition ptr_of (w : list Z) : Mem := fun k => nth (Z.to_nat k) w 0.

(** The words [p[0 .. n)] read through a pointer. *)
Definition read_words (p : Mem) (n : Z) : list Z :=
  map (fun k => p (Z.of_nat k)) (seq 0 (Z.to_nat n)).

(* ================================================================= *)
(** ** Random source *)

(** Modelled from the spec: [kissrandom.h] ([Kiss64Random]) is not among the
    sources.  The spec (section 4.2) gives the generator as a deterministic
    source with [index(n)] in [[0, n)], [flip()] in [{0,1}] and
    [set_seed(u64)], constructed with a fixed default seed.  It is kept as an
    interface; every operation returns the advanced generator. *)
Class Random (R : Type) : Type := {
  default_random : R;
  random_set_seed : Z -> R -> R;
  index : Z -> R -> Z * R;
  flip : R -> bool * R
}.

(* ================================================================= *)
(** ** Hamming metric *)

Module Hamming.

Definition max_iterations : nat := 20.

(** [jakubelib_popcount] is [__builtin_popcountll] on every compiler but
    MSVC (the branch modelled here): the number of set bits of its
    [unsigned long long] argument. *)
Definition jakubelib_popcount (x : Z) : Z :=
  fold_left (fun acc k => if Z.testbit x (Z.of_nat k) then acc + 1 else acc)
            (seq 0 64) 0.

(** [pq_distance]: [distance - (margin != (unsigned int) child_nr)]. *)
Definition pq_distance (distance margin child_nr : Z) : Z :=
  to_int (distance - (if to_uint margin =? to_uint child_nr then 0 else 1)).

Definition pq_initial_value : Z := INT_MAX.

(** [distance]: the loop [dist += popcount(x->v[i] ^ y->v[i])] over a
    [size_t] accumulator.  The operand of the xor is an [int]; passing it to
    [__builtin_popcountll(unsigned long long)] converts it to 64 bits, which
    sign-extends.  The result is returned as [T]. *)
Fixpoint distance_loop (x y : Node) (i : Z) (n : nat) (dist : Z) : Z :=
  match n with
  | O => dist
  | S n' =>
      distance_loop x y (i + 1) n'
        (to_size_t (dist + jakubelib_popcount
                             (to_size_t (Z.lxor (v x i) (v y i)))))
  end.

Definition distance (x y : Node) (f : Z) : Z :=
  to_int (distance_loop x y 0 (Z.to_nat f) 0).

(** [margin]: [n_bits = sizeof(T) * 8] is a [size_t], so [n->v[0]] is
    converted to [size_t] for the division and the remainder. *)
Definition margin (n : Node) (y : Mem) (f : Z) : bool :=
  let n_bits := sizeof_T * 8 in
  let chunk := to_int (to_size_t (v n 0) / n_bits) in
  let mask := to_int (Z.shiftl 1 (n_bits - 1 - to_size_t (v n 0) mod n_bits)) in
  negb (Z.land (y chunk) mask =? 0).

Definition side (n : Node) (y : Node) (f : Z) : bool := margin n (v y) f.

Definition normalized_distance (d : Z) : Z := d.

Definition name : string := "hamming".

(** [create_split]: the two counting loops share [count_margin]; [splits]
    is the test [cur_size > 0 && cur_size < nodes.size()]. *)
Definition count_margin (n : Node) (nodes : list Node) (f : Z) : Z :=
  Z.of_nat (length (filter (fun it => margin n (v it) f) nodes)).

Definition splits (n : Node) (nodes : list Node) (f : Z) : bool :=
  let cur_size := count_margin n nodes f in
  (0 <? cur_size) && (cur_size <? Z.of_nat (length nodes)).

Section CreateSplit.
Context {R : Type} {RS : Random R}.

(** The loop [for (; i < max_iterations; i++)]; the boolean tells whether it
    left through [break] (so that [i != max_iterations] afterwards). *)
Fixpoint random_tries (tries : nat) (nodes : list Node) (f dim : Z)
    (n : Node) (random : R) : bool * Node * R :=
  match tries with
  | O => (false, n, random)
  | S tries' =>
      let (b, random') := index (to_size_t dim) random in
      let n' := set_v n 0 (to_int b) in
      if splits n' nodes f then (true, n', random')
      else random_tries tries' nodes f dim n' random'
  end.

(** The loop [for (; j < dim; j++)] of the brute-force branch. *)
Fixpoint brute_force (js : list Z) (nodes : list Node) (f : Z) (n : Node)
    : Node :=
  match js with
  | [] => n
  | j :: js' =>
      let n' := set_v n 0 j in
      if splits n' nodes f then n' else brute_force js' nodes f n'
  end.

Definition create_split (nodes : list Node) (f : Z) (random : R) (n : Node)
    : Node * R :=
  let dim := to_int (f * 8 * sizeof_T) in
  let '(found, n1, random1) :=
    random_tries max_iterations nodes f dim n random in
  if found then (n1, random1)
  else (brute_force (map Z.of_nat (seq 0 (Z.to_nat dim))) nodes f n1, random1).

End CreateSplit.

End Hamming.

(* ================================================================= *)
(** ** The index *)

(** What a member function reports: [true], or [false] with the message it
    hands to [set_error_from_string] / [set_error_from_errno], or an
    exception that leaves the function.  [Undefined] stands for a call that
    runs into behaviour neither the language nor the operating system
    defines (releasing a block with the wrong call, a store through a
    read-only mapping): the source fixes no result for it, and a process
    that gets there usually dies. *)
Inductive Status : Type :=
| Ok
| Error (msg : string)
| Throws (what : string)
| Undefined (what : string).

(** Result of a computation that may loop: [OutOfFuel] means the given number
    of loop iterations and recursive calls did not suffice. *)
Inductive Outcome (A : Type) : Type :=
| Done (a : A)
| OutOfFuel.

Arguments Done {A} a.
Arguments OutOfFuel {A}.

(** The data members of [class JakubeIndex].  [_nodes = None] is the null
    pointer.  [_mapping] is not a member of the class: it records where a
    non-null [_nodes] comes from, which the source does not store.
    [Some len] says the block is the read-only mapping [load] has made of a
    file of [len] words; [None] says it is a heap block from [realloc]. *)
Record JakubeIndex (R : Type) : Type := mkIndex {
  _f : Z;
  _s : Z;
  _n_items : Z;
  _nodes : option Mem;
  _n_nodes : Z;
  _nodes_size : Z;
  _roots : list Z;
  _K : Z;
  _random : R;
  _verbose : bool;
  _built : bool;
  _fd : Z;
  _mapping : option Z
}.

Arguments mkIndex {R}.
Arguments _f {R}.
Arguments _s {R}.
Arguments _n_items {R}.
Arguments _nodes {R}.
Arguments _n_nodes {R}.
Arguments _nodes_size {R}.
Arguments _roots {R}.
Arguments _K {R}.
Arguments _random {R}.
Arguments _verbose {R}.
Arguments _built {R}.
Arguments _fd {R}.
Arguments _mapping {R}.

Section Setters.
Context {R : Type}.
Implicit Type idx : JakubeIndex R.

Definition set_n_items (x : Z) idx : JakubeIndex R :=
  mkIndex (_f idx) (_s idx) x (_nodes idx) (_n_nodes idx) (_nodes_size idx)
    (_roots idx) (_K idx) (_random idx) (_verbose idx) (_built idx) (_fd idx) (_mapping idx).

Definition set_nodes (x : option Mem) idx : JakubeIndex R :=
  mkIndex (_f idx) (_s idx) (_n_items idx) x (_n_nodes idx) (_nodes_size idx)
    (_roots idx) (_K idx) (_random idx) (_verbose idx) (_built idx) (_fd idx) (_mapping idx).

Definition set_n_nodes (x : Z) idx : JakubeIndex R :=
  mkIndex (_f idx) (_s idx) (_n_items idx) (_nodes idx) x (_nodes_size idx)
    (_roots idx) (_K idx) (_random idx) (_verbose idx) (_built idx) (_fd idx) (_mapping idx).

Definition set_nodes_size (x : Z) idx : JakubeIndex R :=
  mkIndex (_f idx) (_s idx) (_n_items idx) (_nodes idx) (_n_nodes idx) x
    (_roots idx) (_K idx) (_random idx) (_verbose idx) (_built idx) (_fd idx) (_mapping idx).

Definition set_roots (x : list Z) idx : JakubeIndex R :=
  mkIndex (_f idx) (_s idx) (_n_items idx) (_nodes idx) (_n_nodes idx)
    (_nodes_size idx) x (_K idx) (_random idx) (_verbose idx) (_built idx)
    (_fd idx) (_mapping idx).

Definition set_K (x : Z) idx : JakubeIndex R :=
  mkIndex (_f idx) (_s idx) (_n_items idx) (_nodes idx) (_n_nodes idx)
    (_nodes_size idx) (_roots idx) x (_random idx) (_verbose idx) (_built idx)
    (_fd idx) (_mapping idx).

Definition set_random (x : R) idx : JakubeIndex R :=
  mkIndex (_f idx) (_s idx) (_n_items idx) (_nodes idx) (_n_nodes idx)
    (_nodes_size idx) (_roots idx) (_K idx) x (_verbose idx) (_built idx)
    (_fd idx) (_mapping idx).

Definition set_verbose (x : bool) idx : JakubeIndex R :=
  mkIndex (_f idx) (_s idx) (_n_items idx) (_nodes idx) (_n_nodes idx)
    (_nodes_size idx) (_roots idx) (_K idx) (_random idx) x (_built idx)
    (_fd idx) (_mapping idx).

Definition set_built (x : bool) idx : JakubeIndex R :=
  mkIndex (_f idx) (_s idx) (_n_items idx) (_nodes idx) (_n_nodes idx)
    (_nodes_size idx) (_roots idx) (_K idx) (_random idx) (_verbose idx) x
    (_fd idx) (_mapping idx).

Definition set_fd (x : Z) idx : JakubeIndex R :=
  mkIndex (_f idx) (_s idx) (_n_items idx) (_nodes idx) (_n_nodes idx)
    (_nodes_size idx) (_roots idx) (_K idx) (_random idx) (_verbose idx)
    (_built idx) x (_mapping idx).

Definition set_mapping (x : option Z) idx : JakubeIndex R :=
  mkIndex (_f idx) (_s idx) (_n_items idx) (_nodes idx) (_n_nodes idx)
    (_nodes_size idx) (_roots idx) (_K idx) (_random idx) (_verbose idx)
    (_built idx) (_fd idx) x.

(** The block [_nodes] points to.  Reading through a null [_nodes] has no
    meaning in the source; the model reads zeros there and no theorem
    relies on it. *)
Definition arena idx : Mem :=
  match _nodes idx with
  | Some m => m
  | None => fun _ => 0
  end.

(** [_get(i)] *)
Definition _get idx (i : Z) : Node := get_node_ptr (arena idx) (_s idx) i.

(** The test [if (n)] on a pointer obtained from [_get]. *)
Definition is_null idx (i : Z) : bool :=
  match _nodes idx with
  | Some _ => false
  | None => node_offset (_s idx) i =? 0
  end.

(** Stores through a pointer obtained from [_get(i)]: one word at word
    offset [off] of record [i], or a [memcpy] of [count] words there.  A
    store through a null [_nodes] is dropped. *)
Definition arena_store idx (i off x : Z) : JakubeIndex R :=
  match _nodes idx with
  | Some m => set_nodes (Some (store m (node_offset (_s idx) i + off) x)) idx
  | None => idx
  end.

Definition arena_memcpy idx (i off : Z) (src : Mem) (count : Z)
    : JakubeIndex R :=
  match _nodes idx with
  | Some m =>
      set_nodes (Some (memcpy m (node_offset (_s idx) i + off) src count)) idx
  | None => idx
  end.

(** Whether [_nodes] points into a read-only mapping. *)
Definition is_mapping idx : bool :=
  match _nodes idx, _mapping idx with
  | Some _, Some _ => true
  | _, _ => false
  end.

(** The call [unload] releases the block with, [munmap] when [_built] and
    [free] otherwise, against where the block comes from: [free] on a
    mapping is undefined in C, and what [munmap] does to a range [mmap] has
    not handed out is left open by POSIX. *)
Definition release_mismatch idx : option string :=
  match _nodes idx with
  | None => None
  | Some _ =>
      match _built idx, _mapping idx with
      | true, None => Some "munmap of a block obtained from realloc"%string
      | false, Some _ => Some "free of a block obtained from mmap"%string
      | _, _ => None
      end
  end.

End Setters.

(** Comparison of split imbalances.  [_split_imbalance] computes in
    [double]; the model computes the exact quotient of the two sizes.  IEEE
    division rounds monotonically and 1.0 is representable, so a quotient
    that is at least 1 stays at least 1 after rounding, and the literals
    [0.95] and [0.99] denote doubles below 1. *)
Definition Qltb (a b : Q) : bool := negb (Qle_bool b a).

Definition _split_imbalance (left right : list Z) : Q :=
  let ls := inject_Z (Z.of_nat (length left)) in
  let rs := inject_Z (Z.of_nat (length right)) in
  if Qeq_bool ls 0 || Qeq_bool rs 0 then 1%Q
  else Qmax (ls / rs) (rs / ls).

Section Index.
Context {R : Type} {RS : Random R}.

(** Contents of memory the program obtains without initialising it: what
    [realloc] hands out beyond the old block, and what [alloca] (or an
    uninitialised local) finds on the stack.  Both are indeterminate in
    C++; they are inputs of the model. *)
Variable heap_garbage : Mem.
Variable stack_garbage : Mem.

Implicit Type idx : JakubeIndex R.

(** The constructor [JakubeIndex(int f)]. *)
Definition new_index (f : Z) : JakubeIndex R :=
  let s := to_size_t (offsetof_v + f * sizeof_T) in
  mkIndex f s 0 None 0 0 []
    (to_int (to_size_t ((s - offsetof_children) / sizeof_S - 2)))
    default_random false false 0 None.

Definition get_f idx : Z := _f idx.

(** [realloc(_nodes, size)] of a heap block that the allocator grants: the
    old block is kept up to its old size (the old capacity times the
    stride, in words), the rest is whatever the allocator returns.  Two
    things are outside the model.  A refused allocation, after which
    [_allocate_size] throws [std::bad_alloc]: what is stated about calls
    that allocate is stated of calls the allocator serves.  And [realloc]
    of a mapping, which is undefined: [add_item] tests for a mapping before
    it gets here, and [_make_tree] gets here only from a call that is not
    for a root. *)
Definition realloc (old : option Mem) (old_words : Z) : Mem :=
  match old with
  | None => heap_garbage
  | Some m => fun a => if a <? old_words then m a else heap_garbage a
  end.

(** [_allocate_size].  [(S)((_nodes_size + 1) * reallocation_factor)] with
    [reallocation_factor = 1.3] is the integer part of [13 (n + 1) / 10]:
    the double nearest to 1.3 exceeds it by less than 5e-17 and the product
    stays below 2^32, so rounding never crosses an integer. *)
Definition _allocate_size (n : Z) idx : JakubeIndex R :=
  if n >? _nodes_size idx then
    let new_nodes_size :=
      Z.max n (to_int ((_nodes_size idx + 1) * 13 / 10)) in
    let new_nodes :=
      realloc (_nodes idx) (node_offset (_s idx) (_nodes_size idx)) in
    set_nodes_size new_nodes_size (set_nodes (Some new_nodes) idx)
  else idx.

(** [add_item].  [D::zero_value] and [D::init_node] are empty for Hamming.
    On an index that is not built but whose block is a mapping (left so by
    [load] and [unbuild]) the call either hands the mapping to [realloc] or
    stores [n_descendants] through it, and the mapping is [PROT_READ]. *)
Definition add_item (item : Z) (w : list Z) idx : Status * JakubeIndex R :=
  if _built idx then
    (Error "Index already built, cannot add more items", idx)
  else if is_mapping idx then
    (Undefined "store through a read-only mapping", idx)
  else
    let idx1 := _allocate_size (to_int (item + 1)) idx in
    let idx2 := arena_store idx1 item 0 1 in
    let idx3 := arena_memcpy idx2 item (offsetof_v / 4) (ptr_of w) (_f idx2) in
    let idx4 :=
      if item >=? _n_items idx3 then set_n_items (to_int (item + 1)) idx3
      else idx3 in
    (Ok, idx4).

(** A sequence of [add_item] calls, stopping at the first failure. *)
Fixpoint add_items (items : list (Z * list Z)) idx : Status * JakubeIndex R :=
  match items with
  | [] => (Ok, idx)
  | (item, w) :: rest =>
      match add_item item w idx with
      | (Ok, idx') => add_items rest idx'
      | failed => failed
      end
  end.

Definition unbuild idx : Status * JakubeIndex R :=
  if negb (_built idx) then (Error "Index not built", idx)
  else (Ok, set_built false (set_n_nodes (_n_items idx) (set_roots [] idx))).

(** [unload].  The descriptor is closed first; then the block is released
    by [munmap] or [free] as [_built] says, which is undefined when that is
    not the call the block was obtained for; after a matching release the
    members are reset. *)
Definition unload idx : Status * JakubeIndex R :=
  let idx1 := if _fd idx =? 0 then idx else set_fd 0 idx in
  match release_mismatch idx1 with
  | Some what => (Undefined what, idx1)
  | None =>
      (Ok,
       set_built false
         (set_nodes_size 0
            (set_n_nodes 0
               (set_n_items 0
                  (set_roots [] (set_mapping None (set_nodes None idx1)))))))
  end.

Definition verbose (b : bool) idx : JakubeIndex R := set_verbose b idx.

Definition set_seed (seed : Z) idx : JakubeIndex R :=
  set_random (random_set_seed seed (_random idx)) idx.

(** [get_item]: the [f] words copied out of the record. *)
Definition get_item idx (item : Z) : list Z :=
  read_words (v (_get idx item)) (_f idx).

Definition get_distance idx (i j : Z) : Z :=
  Hamming.normalized_distance
    (Hamming.distance (_get idx i) (_get idx j) (_f idx)).

Definition get_n_items idx : Z := _n_items idx.

Definition get_n_trees idx : Z := to_int (Z.of_nat (length (_roots idx))).

(* ----------------------------------------------------------------- *)
(** *** Tree construction *)

(** [children_indices[side].push_back(j)] *)
Definition push_side (ci : list Z * list Z) (side : bool) (j : Z)
    : list Z * list Z :=
  if side then (fst ci, snd ci ++ [j]) else (fst ci ++ [j], snd ci).

(** One pass of the body of [for (int attempt = 0; attempt < 3; attempt++)]:
    clear both lists, [create_split], distribute the indices. *)
Definition split_attempt idx (nodes : list Node) (indices : list Z)
    (m : Node) (random : R) : (list Z * list Z) * Node * R :=
  let (m', random') := Hamming.create_split nodes (_f idx) random m in
  let ci :=
    fold_left
      (fun ci j =>
         if is_null idx j then ci
         else push_side ci (Hamming.side m' (_get idx j) (_f idx)) j)
      indices ([], []) in
  (ci, m', random').

(** The attempt loop with its [break]. *)
Fixpoint split_attempts (attempts : nat) idx (nodes : list Node)
    (indices : list Z) (st : (list Z * list Z) * Node * R)
    : (list Z * list Z) * Node * R :=
  match attempts with
  | O => st
  | S attempts' =>
      let '(_, m, random) := st in
      let st' := split_attempt idx nodes indices m random in
      let '(ci, _, _) := st' in
      if Qltb (_split_imbalance (fst ci) (snd ci)) (95 # 100) then st'
      else split_attempts attempts' idx nodes indices st'
  end.

(** The body of the fallback loop: clear both lists and deal every index
    to the side [_random.flip()] names. *)
Definition coin_partition (indices : list Z) (random : R)
    : (list Z * list Z) * R :=
  fold_left
    (fun (st : (list Z * list Z) * R) j =>
       let (b, random') := flip (snd st) in
       (push_side (fst st) b j, random'))
    indices (([], []), random).

(** [while (_split_imbalance(...) > 0.99) { ... }] *)
Fixpoint fallback (fuel : nat) (indices : list Z) (ci : list Z * list Z)
    (random : R) : Outcome ((list Z * list Z) * R) :=
  match fuel with
  | O => OutOfFuel
  | S fuel' =>
      if Qltb (99 # 100) (_split_imbalance (fst ci) (snd ci)) then
        let (ci', random') := coin_partition indices random in
        fallback fuel' indices ci' random'
      else Done (ci, random)
  end.

(** [children_indices[k]] *)
Definition pick (ci : list Z * list Z) (k : Z) : list Z :=
  if k =? 0 then fst ci else snd ci.

(** The group-node branch: a new record holding the ids. *)
Definition make_group (indices : list Z) idx : Z * JakubeIndex R :=
  let idx1 := _allocate_size (to_int (_n_nodes idx + 1)) idx in
  let item := _n_nodes idx1 in
  let idx2 := set_n_nodes (to_int (item + 1)) idx1 in
  let idx3 := arena_store idx2 item 0 (to_int (Z.of_nat (length indices))) in
  (item,
   fold_left
     (fun st i =>
        arena_store st item (offsetof_children / 4 + Z.of_nat i)
          (nth i indices 0))
     (seq 0 (length indices)) idx3).

Fixpoint _make_tree (fuel : nat) (indices : list Z) (is_root : bool) idx
    : Outcome (Z * JakubeIndex R) :=
  match fuel with
  | O => OutOfFuel
  | S fuel' =>
      let size := Z.of_nat (length indices) in
      if (size =? 1) && negb is_root then Done (nth 0 indices 0, idx)
      else if (size <=? to_size_t (_K idx)) && negb is_root then
        Done (make_group indices idx)
      else
        let nodes :=
          map (_get idx) (filter (fun j => negb (is_null idx j)) indices) in
        let '(ci0, m, random1) :=
          split_attempts 3 idx nodes indices
            (([], []), stack_garbage, _random idx) in
        match fallback fuel' indices ci0 random1 with
        | OutOfFuel => OutOfFuel
        | Done (ci, random2) =>
            let idx1 := set_random random2 idx in
            let flip_ :=
              if Z.of_nat (length (fst ci)) >? Z.of_nat (length (snd ci))
              then 1 else 0 in
            let m1 :=
              set_n_descendants m
                (if is_root then _n_items idx1 else to_int size) in
            (* side = 0 *)
            match _make_tree fuel' (pick ci (Z.lxor 0 flip_)) false idx1 with
            | OutOfFuel => OutOfFuel
            | Done (c0, idx2) =>
                let m2 := set_children m1 (Z.lxor 0 flip_) c0 in
                (* side = 1 *)
                match
                  _make_tree fuel' (pick ci (Z.lxor 1 flip_)) false idx2
                with
                | OutOfFuel => OutOfFuel
                | Done (c1, idx3) =>
                    let m3 := set_children m2 (Z.lxor 1 flip_) c1 in
                    let idx4 :=
                      _allocate_size (to_int (_n_nodes idx3 + 1)) idx3 in
                    let item := _n_nodes idx4 in
                    let idx5 := set_n_nodes (to_int (item + 1)) idx4 in
                    Done (item, arena_memcpy idx5 item 0 m3 (_s idx5 / 4))
                end
            end
        end
  end.

(** [k] passes of the body of the fallback loop. *)
Fixpoint fallback_passes (k : nat) (indices : list Z)
    (st : (list Z * list Z) * R) : (list Z * list Z) * R :=
  match k with
  | O => st
  | S k' => fallback_passes k' indices (coin_partition indices (snd st))
  end.

(** What a call of [_make_tree] for a root has chosen once the attempt
    loop and [k] passes of the fallback loop are behind it: the two lists
    of indices and the state of the generator. *)
Definition root_choices (k : nat) idx : (list Z * list Z) * R :=
  let indices := map Z.of_nat (seq 0 (Z.to_nat (_n_items idx))) in
  let nodes :=
    map (_get idx) (filter (fun j => negb (is_null idx j)) indices) in
  let '(ci0, _, random1) :=
    split_attempts 3 idx nodes indices (([], []), stack_garbage, _random idx)
  in
  fallback_passes k indices (ci0, random1).

(** The loop [for (int i = 0; i < q; i++)] of [build]. *)
Fixpoint build_trees (fuel : nat) (q : nat) idx : Outcome (JakubeIndex R) :=
  match q with
  | O => Done idx
  | S q' =>
      let indices := map Z.of_nat (seq 0 (Z.to_nat (_n_items idx))) in
      match _make_tree fuel indices true idx with
      | OutOfFuel => OutOfFuel
      | Done (root, idx') =>
          build_trees fuel q' (set_roots (_roots idx' ++ [root]) idx')
      end
  end.

(** [build].  [preprocess] and [postprocess] are empty for Hamming. *)
Definition build (fuel : nat) (q : Z) idx : Outcome (Status * JakubeIndex R) :=
  if _built idx then Done (Error "Index already built", idx)
  else if _n_items idx =? 0 then Done (Error "No items added", idx)
  else
    let idx1 := set_n_nodes (_n_items idx) idx in
    match build_trees fuel (Z.to_nat q) idx1 with
    | OutOfFuel => OutOfFuel
    | Done idx2 => Done (Ok, set_built true idx2)
    end.

(* ----------------------------------------------------------------- *)
(** *** Queries *)

(** [operator<] of [std::pair<T, S>] and the matching [<=]. *)
Definition pair_ltb (a b : Z * Z) : bool :=
  (fst a <? fst b) || ((fst a =? fst b) && (snd a <? snd b)).

Definition pair_leb (a b : Z * Z) : bool := negb (pair_ltb b a).

(** [std::sort]: the result is the ascending arrangement of the input. *)
Fixpoint insert_sorted {A : Type} (leb : A -> A -> bool) (x : A) (l : list A)
    : list A :=
  match l with
  | [] => [x]
  | y :: l' => if leb x y then x :: l else y :: insert_sorted leb x l'
  end.

Definition std_sort {A : Type} (leb : A -> A -> bool) (l : list A) : list A :=
  fold_right (insert_sorted leb) [] l.

(** [std::partial_sort(first, first + middle, last)] puts the [middle]
    smallest elements in ascending order at the front and leaves the others
    behind them in an unspecified order; only the front is read afterwards,
    and the model leaves the others ascending too. *)
Definition partial_sort (middle : nat) (l : list (Z * Z)) : list (Z * Z) :=
  firstn middle (std_sort pair_leb l) ++ skipn middle (std_sort pair_leb l).

(** [std::priority_queue<pair<T, S>>] as the multiset of its elements:
    [top] is the greatest one and [pop] removes one copy of it. *)
Fixpoint top (q : list (Z * Z)) : option (Z * Z) :=
  match q with
  | [] => None
  | x :: q' =>
      match top q' with
      | None => Some x
      | Some y => Some (if pair_ltb x y then y else x)
      end
  end.

Fixpoint remove_one (x : Z * Z) (q : list (Z * Z)) : list (Z * Z) :=
  match q with
  | [] => []
  | y :: q' =>
      if (fst x =? fst y) && (snd x =? snd y) then q'
      else y :: remove_one x q'
  end.

Definition pop (q : list (Z * Z)) : list (Z * Z) :=
  match top q with
  | None => q
  | Some x => remove_one x q
  end.

Definition push (q : list (Z * Z)) (x : Z * Z) : list (Z * Z) := x :: q.

(** The conversion of [search_k] before the loop and the cast
    [(size_t)search_k] in its guard. *)
Definition effective_search_k idx (n search_k : Z) : Z :=
  to_size_t
    (if search_k =? -1
     then to_int (to_size_t (n * Z.of_nat (length (_roots idx))))
     else search_k).

(** [nns.insert(nns.end(), dst, &dst[nd->n_descendants])].  For a negative
    [n_descendants] the range is inverted and the call undefined; the model
    yields no ids there, and statements about queries are kept to arenas
    whose group records have a count of at least 0 (see [forest_wf]). *)
Definition group_ids (nd : Node) : list Z :=
  map (fun k => children nd (Z.of_nat k))
      (seq 0 (Z.to_nat (n_descendants nd))).

(** The candidate-gathering loop
    [while (nns.size() < (size_t)search_k && !q.empty())]. *)
Fixpoint gather (fuel : nat) idx (qv : Mem) (bound : Z) (q : list (Z * Z))
    (nns : list Z) : Outcome (list Z) :=
  match fuel with
  | O => OutOfFuel
  | S fuel' =>
      if Z.of_nat (length nns) <? bound then
        match top q with
        | None => Done nns
        | Some (d, i) =>
            let nd := _get idx i in
            let q' := pop q in
            if (n_descendants nd =? 1) && (i <? _n_items idx) then
              gather fuel' idx qv bound q' (nns ++ [i])
            else if n_descendants nd <=? _K idx then
              gather fuel' idx qv bound q' (nns ++ group_ids nd)
            else
              let margin := if Hamming.margin nd qv (_f idx) then 1 else 0 in
              let q1 := push q' (Hamming.pq_distance d margin 1, children nd 1) in
              let q2 := push q1 (Hamming.pq_distance d margin 0, children nd 0) in
              gather fuel' idx qv bound q2 nns
        end
      else Done nns
  end.

(** The loop that skips repeated ids and keeps the records with
    [n_descendants == 1], paired with their distance to the query. *)
Fixpoint nns_dist_loop idx (v_node : Node) (nns : list Z) (last : Z)
    : list (Z * Z) :=
  match nns with
  | [] => []
  | j :: rest =>
      if j =? last then nns_dist_loop idx v_node rest last
      else if n_descendants (_get idx j) =? 1 then
        (Hamming.distance v_node (_get idx j) (_f idx), j)
          :: nns_dist_loop idx v_node rest j
      else nns_dist_loop idx v_node rest j
  end.

(** Everything after the gathering loop: sort, pair with distances,
    partial sort, copy out [p] results as (ids, distances). *)
Definition rank idx (v_node : Node) (n : Z) (nns : list Z)
    : list Z * list Z :=
  let nns_dist := nns_dist_loop idx v_node (std_sort Z.leb nns) (-1) in
  let m := Z.of_nat (length nns_dist) in
  let p := Z.to_nat (if n <? m then n else m) in
  let sorted := partial_sort p nns_dist in
  (map snd (firstn p sorted),
   map (fun x => Hamming.normalized_distance (fst x)) (firstn p sorted)).

(** The candidates [_get_all_nns] has gathered when its loop ends. *)
Definition candidates (fuel : nat) idx (qv : Mem) (n search_k : Z)
    : Outcome (list Z) :=
  gather fuel idx qv (effective_search_k idx n search_k)
    (fold_left (fun q r => push q (Hamming.pq_initial_value, r))
               (_roots idx) [])
    [].

Definition _get_all_nns (fuel : nat) idx (qv : Mem) (n search_k : Z)
    : Outcome (list Z * list Z) :=
  let v_node := memcpy stack_garbage (offsetof_v / 4) qv (_f idx) in
  match candidates fuel idx qv n search_k with
  | OutOfFuel => OutOfFuel
  | Done nns => Done (rank idx v_node n nns)
  end.

Definition get_nns_by_item (fuel : nat) idx (item n search_k : Z)
    : Outcome (list Z * list Z) :=
  _get_all_nns fuel idx (v (_get idx item)) n search_k.

Definition get_nns_by_vector (fuel : nat) idx (w : list Z) (n search_k : Z)
    : Outcome (list Z * list Z) :=
  _get_all_nns fuel idx (ptr_of w) n search_k.

(* ----------------------------------------------------------------- *)
(** *** Persistence *)

(** The part of the operating system the index talks to: the files by
    path (as words), whether a path can be opened for writing, and the
    descriptor a successful [open] returns. *)
Record OS : Type := mkOS {
  files : string -> option (list Z);
  can_write : string -> bool;
  next_fd : Z
}.

Definition write_file (os : OS) (filename : string) (content : list Z) : OS :=
  mkOS (fun p => if String.eqb p filename then Some content else files os p)
       (can_write os) (next_fd os).

(** [save].  The messages are the ones handed to [set_error_from_errno]
    and [set_error_from_string]; failing [write] calls are outside the
    model. *)
Definition save (os : OS) (filename : string) idx : Status * OS :=
  if negb (_built idx) then (Error "Index not built", os)
  else if negb (can_write os filename) then
    (Error "Unable to open file for writing", os)
  else
    let roots_size := to_int (Z.of_nat (length (_roots idx))) in
    (Ok,
     write_file os filename
       ([_f idx; _n_items idx; _n_nodes idx; _nodes_size idx; _K idx]
        ++ [roots_size]
        ++ firstn (Z.to_nat roots_size) (_roots idx)
        ++ read_words (arena idx) (node_offset (_s idx) (_n_nodes idx)))).

(** What [mmap(0, length, PROT_READ, MAP_SHARED, fd, 0)] yields: the words
    of the file from its very start.  Past the end of the file a real
    mapping reads zeros up to the end of the file's last page and raises
    SIGBUS beyond it, and past [length] there need be no mapping at all;
    the model reads zeros there, so it stands for the mapping only on the
    words that lie inside both the file and [length].  Statements about a
    loaded index are kept to such words (see [arena_backed]); that the
    mapping cannot be written is what [_mapping] is for. *)
Definition mmap (file : list Z) : Mem :=
  fun a => if a <? 0 then 0 else nth (Z.to_nat a) file 0.

(** [mmap] refuses a zero length, and a length beyond the address space. *)
Definition mmap_fails (nodes_size : Z) : bool :=
  (nodes_size =? 0) || (2 ^ 47 <=? nodes_size).

(** [load].  It starts with [unload()], and what is undefined there is
    undefined here.  A [read] that meets the end of the file returns a
    short count, not -1, and leaves the rest of its buffer as it was: a
    member keeps the value [unload] gave it, a local keeps its stack
    garbage. *)
Definition load (os : OS) (filename : string) idx : Status * JakubeIndex R :=
  match unload idx with
  | (Undefined what, idx') => (Undefined what, idx')
  | (_, idx0) =>
  match files os filename with
  | None => (Error "Unable to open file for reading", set_fd (-1) idx0)
  | Some file =>
      let idx1 := set_fd (next_fd os) idx0 in
      let f_file := nth 0 file (stack_garbage 0) in
      if negb (f_file =? _f idx1) then
        (Error "Dimension mismatch", set_fd 0 idx1)
      else
        let idx2 :=
          set_K (nth 4 file (_K idx1))
            (set_nodes_size (nth 3 file (_nodes_size idx1))
               (set_n_nodes (nth 2 file (_n_nodes idx1))
                  (set_n_items (nth 1 file (_n_items idx1)) idx1))) in
        let roots_size := nth 5 file (stack_garbage 1) in
        if roots_size <? 0 then
          (* _roots.resize(roots_size) with a size beyond max_size() *)
          (Throws "std::length_error", idx2)
        else
          let roots :=
            map (fun k => nth (6 + k) file 0) (seq 0 (Z.to_nat roots_size)) in
          let idx3 := set_roots roots idx2 in
          let nodes_size := to_size_t (_s idx3 * to_size_t (_n_nodes idx3)) in
          if mmap_fails nodes_size then
            (Error "Unable to mmap nodes", set_nodes None (set_fd 0 idx3))
          else
            (Ok,
             set_built true
               (set_mapping (Some (Z.of_nat (length file)))
                  (set_nodes (Some (mmap file)) idx3)))
  end
  end.

End Index.

(* ================================================================= *)
(** ** A generator for concrete runs *)

(** A generator that replays a recorded sequence of raw 64-bit draws:
    [index(n)] is the next draw modulo [n], [flip()] its lowest bit.  Any
    run of a deterministic generator is such a sequence. *)
Definition Replay : Type := list Z.

Definition replay_next (r : Replay) : Z * Replay :=
  match r with
  | [] => (0, [])
  | x :: r' => (x, r')
  end.

#[export] Instance ReplayRandom : Random Replay := {|
  default_random := [];
  random_set_seed := fun _ r => r;
  index := fun n r => let (x, r') := replay_next r in (x mod n, r');
  flip := fun r => let (x, r') := replay_next r in (Z.odd x, r')
|}.

(** A second generator for concrete runs, one whose seed matters: a 64-bit
    linear congruential sequence started at the seed; [index(n)] is the
    next state modulo [n], [flip()] its bit 32. *)
Definition Lcg : Type := Z.

Definition lcg_next (r : Lcg) : Lcg :=
  to_size_t (6364136223846793005 * r + 1442695040888963407).

#[export] Instance LcgRandom : Random Lcg | 100 := {|
  default_random := 0;
  random_set_seed := fun seed _ => to_size_t seed;
  index := fun n r => (lcg_next r mod n, lcg_next r);
  flip := fun r => (Z.testbit (lcg_next r) 32, lcg_next r)
|}.

(* ================================================================= *)
(** ** Concrete inputs *)

Definition zero_garbage : Mem := fun _ => 0.
Definition seven_garbage : Mem := fun _ => 7.

(** The three vectors of the doctest "JakubeIndex - Hamming Workflow". *)
Definition doctest_items : list (Z * list Z) :=
  [(0, [3]); (1, [6]); (2, [15])].

Definition doctest_index : JakubeIndex Replay :=
  snd (add_items zero_garbage doctest_items (new_index 1)).

(** The pointers [_make_tree] collects for the root of that index. *)
Definition doctest_nodes : list Node := map (_get doctest_index) [0; 1; 2].

(** A file whose image under [load] is a forest of one tree over two items.
    [load] reads the header [f = 1, n_items = 2, n_nodes = 3,
    nodes_size = 31, K = 1, roots_size = 1] and the root list [2], and maps
    the file from its first byte, four words to a record:
    record 0 is [1; 2; 3; 31], a value node with vector [31];
    record 1 is [1; 1; 2; 0], a value node with vector [0];
    record 2 is [2; 1; 0; 31], an internal node ([n_descendants = 2 > K])
    with [children = {1, 0}] that splits on bit index 31, the lowest bit of
    word 0. *)
Definition forest_file : list Z := [1; 2; 3; 31; 1; 1; 2; 0; 2; 1; 0; 31].

Definition forest_os : OS :=
  mkOS (fun p => if String.eqb p "forest" then Some forest_file else None)
       (fun _ => true) 3.

Definition forest_index : JakubeIndex Replay :=
  snd (load zero_garbage forest_os "forest" (new_index 1)).

Definition empty_os : OS := mkOS (fun _ => None) (fun _ => true) 3.

(* ================================================================= *)
(** ** Notions the statements use *)

(** Population count of a 32-bit word ([bits_per_word = 32]). *)
Definition popcount32 (x : Z) : Z :=
  Z.of_nat (length (filter (fun k => Z.testbit x (Z.of_nat k)) (seq 0 32))).

(** The distance as the spec words it: the sum over the words of the
    population count of their xor. *)
Fixpoint spec_distance (x y : list Z) : Z :=
  match x, y with
  | a :: x', b :: y' => popcount32 (Z.lxor a b) + spec_distance x' y'
  | _, _ => 0
  end.

(** Strict order on (distance, id): smaller distance first, ties by
    ascending id. *)
Definition lex_lt (a b : Z * Z) : Prop :=
  fst a < fst b \/ (fst a = fst b /\ snd a < snd b).

(** The distinct candidates whose record has [n_descendants == 1], the
    test of the loop that pairs candidates with distances. *)
Definition value_candidates {R : Type} (idx : JakubeIndex R) (nns : list Z)
    : list Z :=
  nodup Z.eq_dec (filter (fun j => n_descendants (_get idx j) =? 1) nns).

(** Two vectors with the same [f] words. *)
Definition same_vector (f : Z) (x y : Mem) : Prop :=
  forall k, 0 <= k < f -> x k = y k.

(** Two split nodes with the same plane, a bit index of the vector. *)
Definition same_plane (f : Z) (n n' : Node) : Prop :=
  v n 0 = v n' 0 /\ 0 <= v n 0 < f * 32.

(** Ids a client may add: [item + 1] must be an [int]. *)
Definition valid_id (item : Z) : Prop := 0 <= item < INT_MAX.

(** The arena bytes a [save] would write: the first [_n_nodes] records. *)
Definition arena_words {R : Type} (idx : JakubeIndex R) : list Z :=
  read_words (arena idx) (node_offset (_s idx) (_n_nodes idx)).
(** The largest id of an [add_item] sequence ([-1] for the empty one). *)
Definition max_id (items : list (Z * list Z)) : Z :=
  fold_right Z.max (-1) (map fst items).

(** What holds of an index between its construction with dimension [f] and
    [build]: the stride is that of the constructor, the capacity covers the
    items, and a positive capacity has a block behind it. *)
Definition unbuilt_inv {R : Type} (f : Z) (idx : JakubeIndex R) : Prop :=
  _built idx = false /\
  _f idx = f /\
  _s idx = offsetof_v + f * sizeof_T /\
  _roots idx = [] /\
  0 <= _n_items idx <= _nodes_size idx /\
  (0 < _nodes_size idx -> _nodes idx <> None).

(** The word an [add_item] sequence has last stored at word address [a] of
    the arena of an index of dimension [f], if it has stored one there. *)
Fixpoint stored (f : Z) (items : list (Z * list Z)) (a : Z) (before : option Z)
    : option Z :=
  match items with
  | [] => before
  | (item, w) :: rest =>
      let base := (3 + f) * item in
      stored f rest a
        (if (base + 3 <=? a) && (a <? base + 3 + f) then
           Some (nth (Z.to_nat (a - (base + 3))) w 0)
         else if a =? base then Some 1
         else before)
  end.

(** An [add_item] sequence that leaves id 0 out. *)
Definition gap_items : list (Z * list Z) := [(1, [3])].

Definition single_item : list (Z * list Z) := [(0, [3])].

(** Two vectors that differ in every bit: [0xFFFFFFFF] as an [int32_t], and
    zero. *)
Definition sign_bit_items : list (Z * list Z) := [(0, [-1]); (1, [0])].

(** The bound each node variant puts on [n_descendants], for group capacity
    [K]: a value node has 1, a group node 2 to [K], an internal node more
    than [K]. *)
Definition variant_ok (K d : Z) : Prop := d = 1 \/ 2 <= d <= K \/ K < d.

(** The three cases of the traversal for the record it pops: the test for
    a value node, then the test for a group node, else an internal node. *)
Definition is_value {R : Type} (idx : JakubeIndex R) (i : Z) : bool :=
  (n_descendants (_get idx i) =? 1) && (i <? _n_items idx).

Definition is_group {R : Type} (idx : JakubeIndex R) (i : Z) : bool :=
  negb (is_value idx i) && (n_descendants (_get idx i) <=? _K idx).

Definition is_internal {R : Type} (idx : JakubeIndex R) (i : Z) : bool :=
  negb (is_value idx i) && negb (n_descendants (_get idx i) <=? _K idx).

(** Record indices of the arena. *)
Definition in_arena {R : Type} (idx : JakubeIndex R) (i : Z) : Prop :=
  0 <= i < _n_nodes idx.

(** The block behind [_nodes] holds the [_n_nodes] records of the arena:
    a heap block by its capacity, a mapping by the length of its file. *)
Definition arena_backed {R : Type} (idx : JakubeIndex R) : Prop :=
  _nodes idx <> None /\
  match _mapping idx with
  | Some len => node_offset (_s idx) (_n_nodes idx) <= len
  | None => _n_nodes idx <= _nodes_size idx
  end.

(** What makes the traversal end: roots, the ids of group records and the
    children of internal records are records of the arena, and the children
    of an internal record lie strictly lower ([rk] measures heights). *)
Definition forest_ranked {R : Type} (idx : JakubeIndex R) (rk : Z -> nat)
    : Prop :=
  Forall (in_arena idx) (_roots idx) /\
  forall i, in_arena idx i ->
    (is_group idx i = true ->
       Forall (in_arena idx) (group_ids (_get idx i))) /\
    (is_internal idx i = true ->
       in_arena idx (children (_get idx i) 0) /\
       in_arena idx (children (_get idx i) 1) /\
       (rk (children (_get idx i) 0) < rk i)%nat /\
       (rk (children (_get idx i) 1) < rk i)%nat).

(** The distinct candidates that are value nodes: [n_descendants == 1] and
    an id below [_n_items], the test of the traversal. *)
Definition value_node_candidates {R : Type} (idx : JakubeIndex R)
    (nns : list Z) : list Z :=
  nodup Z.eq_dec (filter (is_value idx) nns).

(** A well-formed forest, as [_make_tree] is written to lay one out and as
    a query relies on without checking.  The stride is the constructor's
    and a group of [K] ids fits in a record; the items come first; the
    block holds the records; the roots are records; a group record has a
    count of at least 0 and holds ids of items; an internal record has
    two records as children, both lower in the forest, and a split plane
    that is a bit index of the vector. *)
Definition forest_wf {R : Type} (idx : JakubeIndex R) (rk : Z -> nat)
    : Prop :=
  0 <= _f idx /\
  _s idx = offsetof_v + _f idx * sizeof_T /\
  0 <= _K idx < _s idx / 4 /\
  0 <= _n_items idx <= _n_nodes idx /\
  arena_backed idx /\
  Forall (in_arena idx) (_roots idx) /\
  forall i, in_arena idx i ->
    (is_group idx i = true ->
       0 <= n_descendants (_get idx i) /\
       Forall (fun j => 0 <= j < _n_items idx) (group_ids (_get idx i))) /\
    (is_internal idx i = true ->
       in_arena idx (children (_get idx i) 0) /\
       in_arena idx (children (_get idx i) 1) /\
       (rk (children (_get idx i) 0) < rk i)%nat /\
       (rk (children (_get idx i) 1) < rk i)%nat /\
       0 <= v (_get idx i) 0 < _f idx * (sizeof_T * 8)).

(** Number of records a queue entry can still make the traversal visit. *)
Definition entry_weight (rk : Z -> nat) (x : Z * Z) : nat :=
  2 ^ S (rk (snd x)) - 1.

Definition queue_weight (rk : Z -> nat) (q : list (Z * Z)) : nat :=
  fold_right (fun x acc => (entry_weight rk x + acc)%nat) 0%nat q.

(** Heights in the forest read from [forest_file]: record 2 is the root. *)
Definition forest_rank (i : Z) : nat := if i =? 2 then 1%nat else 0%nat.

(* ================================================================= *)
(** ** More of the library *)

(** [Hamming::cole_popcount<T>], the population count the MSVC build uses,
    at the type the call [jakubelib_popcount(x->v[i] ^ y->v[i])] deduces:
    [T = int].  [(T)~(T)0 / k] is then the [int] -1 divided by [k], and the
    division of C++ truncates toward zero; [>>] on a negative [int] is the
    arithmetic shift. *)
Definition all_ones_div (k : Z) : Z := Z.quot (to_int (Z.lnot 0)) k.

Definition cole_popcount (x : Z) : Z :=
  let v1 := to_int (x - Z.land (Z.shiftr x 1) (all_ones_div 3)) in
  let v2 :=
    to_int (Z.land v1 (to_int (all_ones_div 15 * 3))
            + Z.land (Z.shiftr v1 2) (to_int (all_ones_div 15 * 3))) in
  let v3 :=
    Z.land (to_int (v2 + Z.shiftr v2 4)) (to_int (all_ones_div 255 * 15)) in
  Z.shiftr (to_int (v3 * all_ones_div 255)) ((sizeof_int - 1) * 8).

(** [Hamming::distance] as MSVC compiles it. *)
Fixpoint distance_loop_msvc (x y : Node) (i : Z) (n : nat) (dist : Z) : Z :=
  match n with
  | O => dist
  | S n' =>
      distance_loop_msvc x y (i + 1) n'
        (to_size_t (dist + cole_popcount (Z.lxor (v x i) (v y i))))
  end.

Definition distance_msvc (x y : Node) (f : Z) : Z :=
  to_int (distance_loop_msvc x y 0 (Z.to_nat f) 0).

(** A 32-bit word as the model stores it. *)
Definition is_word (x : Z) : Prop := - 2 ^ 31 <= x < 2 ^ 31.

(** Three items of dimension 3. *)
Definition three_word_items : list (Z * list Z) :=
  [(0, [1; 2; 3]); (1, [4; 5; 6]); (2, [7; 8; 9])].

Definition three_word_index : JakubeIndex Replay :=
  snd (add_items zero_garbage three_word_items (new_index 3)).

(** A file whose image under [load] has a group record that names a
    record which is no item.  The header is [f = 1, n_items = 1,
    n_nodes = 2, nodes_size = 0, K = 1, roots_size = 1], the root list
    [1]; record 0 is [1; 1; 2; 0], the one item, and record 1 is
    [1; 1; 1; 0]: its index is not below [n_items], so the traversal reads
    it as a group of one id, the id 1. *)
Definition stray_file : list Z := [1; 1; 2; 0; 1; 1; 1; 0].

Definition stray_os : OS :=
  mkOS (fun p => if String.eqb p "stray" then Some stray_file else None)
       (fun _ => true) 3.

Definition stray_index : JakubeIndex Replay :=
  snd (load zero_garbage stray_os "stray" (new_index 1)).

(** A file whose image under [load] has a root that is its own child:
    header [f = 1, n_items = 2, n_nodes = 3, nodes_size = 0, K = 1,
    roots_size = 1], root list [2], and record 2 is [5; 2; 2; 0], an
    internal record ([n_descendants = 5 > K]) with [children = {2, 2}]. *)
Definition cyclic_file : list Z := [1; 2; 3; 0; 1; 1; 2; 0; 5; 2; 2; 0].

Definition cyclic_os : OS :=
  mkOS (fun p => if String.eqb p "cyclic" then Some cyclic_file else None)
       (fun _ => true) 3.

Definition cyclic_index : JakubeIndex Replay :=
  snd (load zero_garbage cyclic_os "cyclic" (new_index 1)).

(** A file written for dimension 2. *)
Definition other_dim_file : list Z := [2; 0; 0; 0; 2; 0].

Definition other_dim_os : OS :=
  mkOS (fun p => if String.eqb p "other" then Some other_dim_file else None)
       (fun _ => true) 3.

(** A file that holds a header and two roots but announces no record. *)
Definition header_only_file : list Z := [1; 5; 0; 0; 1; 2; 7; 8].

Definition header_only_os : OS :=
  mkOS (fun p => if String.eqb p "header" then Some header_only_file else None)
       (fun _ => true) 3.

(* ================================================================= *)
(** ** The Python binding *)

(** How a method of the binding ends: it returns, it raises
    [nb::value_error], another C++ exception leaves it, or the library call
    inside it was undefined. *)
Inductive Py (A : Type) : Type :=
| Returns (a : A)
| ValueError (msg : string)
| Propagates (what : string)
| Undef (what : string).

Arguments Returns {A} a.
Arguments ValueError {A} msg.
Arguments Propagates {A} what.
Arguments Undef {A} what.

(** [IndexWrapper<HammingIndex, int32_t>]. *)
Record IndexWrapper (R : Type) : Type := mkWrapper {
  dims_ : Z;
  index_ : JakubeIndex R
}.

Arguments mkWrapper {R} _ _.
Arguments dims_ {R} _.
Arguments index_ {R} _.

Module Binding.

(** [to_vector], from the point where [nb::cast] has produced the
    [std::vector<T>]: the argument is that vector.  A Python object the cast
    refuses makes [nb::cast] throw before this point; that exception, like
    the [std::bad_alloc] of a refused allocation, is not in the model, so
    nothing is stated about which other exceptions a method lets through. *)
Definition to_vector (values : list Z) (expected_dim : Z) : Py (list Z) :=
  if (expected_dim >=? 0)
     && negb (to_int (Z.of_nat (length values)) =? expected_dim)
  then ValueError "vector has incorrect dimensionality"
  else Returns values.

(** [raise_failure]: the message the library left in the [ErrorBuffer], or
    the fallback when it left none. *)
Definition raise_failure {A : Type} (err : option string) (fallback : string)
    : Py A :=
  ValueError (match err with Some ptr => ptr | None => fallback end).

Section Wrapper.
Context {R : Type} {RS : Random R}.
Variable heap_garbage : Mem.

Definition new (dims : Z) : IndexWrapper R := mkWrapper dims (new_index dims).

Definition add_item (item : Z) (vector_like : list Z) (wr : IndexWrapper R)
    : Py unit * IndexWrapper R :=
  match to_vector vector_like (dims_ wr) with
  | Returns values =>
      let (ok, idx') := add_item heap_garbage item values (index_ wr) in
      let wr' := mkWrapper (dims_ wr) idx' in
      match ok with
      | Ok => (Returns tt, wr')
      | Error msg => (raise_failure (Some msg) "add_item failed", wr')
      | Throws what => (Propagates what, wr')
      | Undefined what => (Undef what, wr')
      end
  | ValueError msg => (ValueError msg, wr)
  | Propagates what => (Propagates what, wr)
  | Undef what => (Undef what, wr)
  end.

(** [get_item]: a buffer of [dims_] zeros into which the library copies its
    [f] words.  A copy longer than the buffer is outside the model. *)
Definition get_item (item : Z) (wr : IndexWrapper R) : list Z :=
  let buffer := repeat 0 (Z.to_nat (to_size_t (dims_ wr))) in
  let words := get_item (index_ wr) item in
  words ++ skipn (length words) buffer.

End Wrapper.

End Binding.

(* ================================================================= *)
(** * Properties *)

(** ** Split imbalance and the two loops of [_make_tree] *)

Lemma inject_nat_pos (l : list Z) :
  Qeq_bool (inject_Z (Z.of_nat (length l))) 0 = false ->
  (0 < inject_Z (Z.of_nat (length l)))%Q.
Proof.
  intro H. destruct l as [|a l]; [discriminate H|].
  unfold Qlt; simpl. lia.
Qed.

Lemma split_imbalance_ge_1 (left right : list Z) :
  (1 <= _split_imbalance left right)%Q.
Proof.
  unfold _split_imbalance.
  destruct (Qeq_bool (inject_Z (Z.of_nat (length left))) 0) eqn:Hl;
    [apply Qle_refl|].
  destruct (Qeq_bool (inject_Z (Z.of_nat (length right))) 0) eqn:Hr;
    [apply Qle_refl|].
  simpl orb. cbv iota.
  pose proof (inject_nat_pos _ Hl) as Pl.
  pose proof (inject_nat_pos _ Hr) as Pr.
  set (ls := inject_Z (Z.of_nat (length left))) in *.
  set (rs := inject_Z (Z.of_nat (length right))) in *.
  destruct (Qlt_le_dec ls rs) as [Hlt|Hle].
  - apply Qle_trans with (rs / ls)%Q; [|apply Q.le_max_r].
    apply Qle_shift_div_l; [exact Pl|]. rewrite Qmult_1_l. apply Qlt_le_weak, Hlt.
  - apply Qle_trans with (ls / rs)%Q; [|apply Q.le_max_l].
    apply Qle_shift_div_l; [exact Pr|]. rewrite Qmult_1_l. exact Hle.
Qed.

Lemma Qltb_true (a b : Q) : (a < b)%Q -> Qltb a b = true.
Proof.
  intro H. unfold Qltb. destruct (Qle_bool b a) eqn:E; [|reflexivity].
  apply Qle_bool_iff in E. exfalso. exact (Qlt_not_le _ _ H E).
Qed.

Lemma Qltb_false (a b : Q) : (b <= a)%Q -> Qltb a b = false.
Proof.
  intro H. unfold Qltb. apply Qle_bool_iff in H. now rewrite H.
Qed.

Lemma fallback_guard_holds (left right : list Z) :
  Qltb (99 # 100) (_split_imbalance left right) = true.
Proof.
  apply Qltb_true.
  apply Qlt_le_trans with 1%Q; [reflexivity | apply split_imbalance_ge_1].
Qed.

Lemma acceptance_test_fails (left right : list Z) :
  Qltb (_split_imbalance left right) (95 # 100) = false.
Proof.
  apply Qltb_false.
  apply Qle_trans with 1%Q; [discriminate | apply split_imbalance_ge_1].
Qed.

Section Divergence.
Context {R : Type} {RS : Random R}.
Variables heap_garbage stack_garbage : Mem.

Lemma fallback_diverges (fuel : nat) :
  forall (indices : list Z) (ci : list Z * list Z) (random : R),
    fallback fuel indices ci random = OutOfFuel.
Proof.
  induction fuel as [|fuel IH]; intros indices ci random; [reflexivity|].
  simpl. rewrite fallback_guard_holds.
  destruct (coin_partition indices random) as [ci' random']. apply IH.
Qed.

Lemma make_tree_root_diverges (fuel : nat) (indices : list Z)
    (idx : JakubeIndex R) :
  _make_tree heap_garbage stack_garbage fuel indices true idx = OutOfFuel.
Proof.
  destruct fuel as [|fuel]; [reflexivity|].
  cbn -[split_attempts]. rewrite !andb_false_r.
  match goal with
  | |- context [split_attempts ?a ?b ?c ?d ?e] =>
      destruct (split_attempts a b c d e) as [[ci0 m] random1]
  end.
  now rewrite fallback_diverges.
Qed.

Lemma build_diverges (fuel : nat) (q : Z) (idx : JakubeIndex R) :
  _built idx = false -> _n_items idx <> 0 -> 1 <= q ->
  build heap_garbage stack_garbage fuel q idx = OutOfFuel.
Proof.
  intros Hb Hn Hq. unfold build. rewrite Hb.
  apply Z.eqb_neq in Hn. rewrite Hn.
  destruct (Z.to_nat q) as [|q'] eqn:E; [lia|].
  simpl. now rewrite make_tree_root_diverges.
Qed.

End Divergence.

(** C1 (code defect).  The doctest scenario: three items, then [build(5)].
    Whatever the generator draws and however many loop iterations and
    recursive calls are granted, [build] has not returned: the guard
    [_split_imbalance(...) > 0.99] of the fallback loop holds for every pair
    of lists, so the loop entered for the first root never exits. *)
Theorem build_never_returns :
  forall (R : Type) (RS : Random R) (heap_garbage stack_garbage : Mem)
         (fuel : nat),
    build heap_garbage stack_garbage fuel 5
      (snd (add_items heap_garbage doctest_items (new_index 1)))
    = OutOfFuel.
Proof.
  intros R RS hg sg fuel. apply build_diverges.
  - vm_compute. reflexivity.
  - vm_compute. discriminate.
  - lia.
Qed.

(** C2, counterexample.  On the doctest items with a generator whose draws
    are 31, 29, 28, the first attempt splits on the lowest bit and yields
    the left list [1]; the loop goes on, and the lists it ends with are
    those of the third attempt, with left list [0; 1]. *)
Lemma split_loop_keeps_third_attempt_example :
  fst (fst (split_attempts 3 doctest_index doctest_nodes [0; 1; 2]
              (([], []), zero_garbage, [31; 29; 28])))
  <> fst (fst (split_attempt doctest_index doctest_nodes [0; 1; 2]
                 zero_garbage [31; 29; 28])).
Proof. vm_compute. discriminate. Qed.

(** C2 (amended).  [_split_imbalance] is at least 1 for every pair of
    lists, so the test [< 0.95] never holds, the [break] is never taken, and
    the loop always runs its three attempts: the generator is advanced by
    three calls of [create_split] and the lists left behind are those of the
    third attempt. *)
Theorem split_loop_runs_three_attempts :
  (forall left right : list Z, (1 <= _split_imbalance left right)%Q) /\
  (forall (R : Type) (RS : Random R) (idx : JakubeIndex R)
          (nodes : list Node) (indices : list Z) (ci : list Z * list Z)
          (m : Node) (random : R),
      split_attempts 3 idx nodes indices (ci, m, random) =
      let '(_, m1, random1) := split_attempt idx nodes indices m random in
      let '(_, m2, random2) := split_attempt idx nodes indices m1 random1 in
      split_attempt idx nodes indices m2 random2).
Proof.
  split; [exact split_imbalance_ge_1|].
  intros R RS idx nodes indices ci m random. cbn [split_attempts].
  destruct (split_attempt idx nodes indices m random) as [[ci1 m1] r1].
  rewrite acceptance_test_fails.
  destruct (split_attempt idx nodes indices m1 r1) as [[ci2 m2] r2].
  rewrite acceptance_test_fails.
  destruct (split_attempt idx nodes indices m2 r2) as [[ci3 m3] r3].
  rewrite acceptance_test_fails. reflexivity.
Qed.

(** ** Arithmetic of the machine integers *)

Lemma to_int_id (z : Z) : - 2 ^ 31 <= z < 2 ^ 31 -> to_int z = z.
Proof.
  intro H. unfold to_int. rewrite Z.mod_small; lia.
Qed.

Lemma to_size_t_id (z : Z) : 0 <= z < 2 ^ 64 -> to_size_t z = z.
Proof. intro H. unfold to_size_t. now rewrite Z.mod_small. Qed.

Lemma to_int_succ_id (item : Z) : valid_id item -> to_int (item + 1) = item + 1.
Proof. unfold valid_id, INT_MAX. intro H. apply to_int_id. lia. Qed.

(** Reduction of member accesses after member updates, and nothing else. *)
Ltac members :=
  cbn [_f _s _n_items _nodes _n_nodes _nodes_size _roots _K _random _verbose
       _built _fd _mapping set_n_items set_nodes set_n_nodes set_nodes_size
       set_roots set_K set_random set_verbose set_built set_fd set_mapping]
    in *.

(** ** [add_item] on the raw arena *)

Section AddItem.
Context {R : Type} {RS : Random R}.
Variable heap_garbage : Mem.
Variable f : Z.
Hypothesis f_range : 0 <= f <= JAKUBELIB_V_ARRAY_SIZE.

Implicit Type idx : JakubeIndex R.

Lemma new_index_inv : unbuilt_inv f (new_index f : JakubeIndex R).
Proof.
  unfold unbuilt_inv, new_index, JAKUBELIB_V_ARRAY_SIZE in *. members.
  repeat split; try lia; try discriminate.
  apply to_size_t_id. unfold offsetof_v, sizeof_T. lia.
Qed.

Lemma new_index_K : _K (new_index f : JakubeIndex R) = f.
Proof.
  unfold new_index, JAKUBELIB_V_ARRAY_SIZE in *. members.
  unfold offsetof_v, sizeof_T, offsetof_children, sizeof_S.
  rewrite (to_size_t_id (12 + f * 4)) by lia.
  replace (12 + f * 4 - 4) with ((f + 2) * 4) by lia.
  rewrite Z.div_mul by lia.
  rewrite to_size_t_id by lia.
  replace (f + 2 - 2) with f by lia. apply to_int_id. lia.
Qed.

Lemma stride_inv idx : unbuilt_inv f idx -> _s idx / 4 = 3 + f.
Proof.
  intros (_ & _ & Hs & _). rewrite Hs. unfold offsetof_v, sizeof_T.
  replace (12 + f * 4) with ((3 + f) * 4) by lia. apply Z.div_mul. lia.
Qed.

Lemma node_offset_inv idx (i : Z) :
  unbuilt_inv f idx -> node_offset (_s idx) i = (3 + f) * i.
Proof. intro H. unfold node_offset. now rewrite (stride_inv idx H). Qed.

(** After [_allocate_size(n)] with [n >= 1] a block is there, it has room
    for [n] records, and the old records are where they were. *)
Lemma allocate_size_spec idx (n : Z) :
  unbuilt_inv f idx -> 1 <= n ->
  exists m1 N,
    _allocate_size heap_garbage n idx
    = set_nodes_size N (set_nodes (Some m1) idx) /\
    n <= N /\ _nodes_size idx <= N /\
    (forall a, 0 <= a < (3 + f) * _nodes_size idx -> m1 a = arena idx a).
Proof.
  intros Hinv Hn. pose proof Hinv as (Hb & Hf & Hs & Hr & Hrange & Hblock).
  unfold _allocate_size. destruct (n >? _nodes_size idx) eqn:E.
  - apply Z.gtb_lt in E.
    eexists. eexists. split; [reflexivity|]. split; [lia|]. split; [lia|].
    intros a Ha. rewrite (node_offset_inv idx _ Hinv).
    unfold realloc, arena. destruct (_nodes idx) as [m|].
    + destruct (a <? (3 + f) * _nodes_size idx) eqn:E2; [reflexivity|].
      apply Z.ltb_ge in E2. lia.
    + assert (_nodes_size idx = 0).
      { destruct (Z.eq_dec (_nodes_size idx) 0); [assumption|].
        exfalso. apply Hblock; [lia|reflexivity]. }
      nia.
  - assert (Hle : n <= _nodes_size idx).
    { destruct (Z.gtb_spec n (_nodes_size idx)); [discriminate|lia]. }
    destruct (_nodes idx) as [m|] eqn:Em.
    + exists m, (_nodes_size idx). split; [|split; [|split]]; try lia.
      * destruct idx; members. now subst.
      * intros a _. unfold arena. now rewrite Em.
    + exfalso. apply Hblock; [lia|reflexivity].
Qed.

(** A block that is no mapping is none: [is_mapping] is off. *)
Lemma heap_is_no_mapping idx : _mapping idx = None -> is_mapping idx = false.
Proof. intro H. unfold is_mapping. rewrite H. now destruct (_nodes idx). Qed.

(** [add_item] does not change where the block comes from. *)
Lemma arena_store_mapping idx (i off x : Z) :
  _mapping (arena_store idx i off x) = _mapping idx.
Proof. unfold arena_store. now destruct (_nodes idx). Qed.

Lemma arena_memcpy_mapping idx (i off : Z) (src : Mem) (count : Z) :
  _mapping (arena_memcpy idx i off src count) = _mapping idx.
Proof. unfold arena_memcpy. now destruct (_nodes idx). Qed.

Lemma allocate_size_mapping idx (n : Z) :
  _mapping (_allocate_size heap_garbage n idx) = _mapping idx.
Proof. unfold _allocate_size. now destruct (n >? _nodes_size idx). Qed.

Lemma add_item_mapping idx (item : Z) (w : list Z) :
  _mapping (snd (add_item heap_garbage item w idx)) = _mapping idx.
Proof.
  unfold add_item. destruct (_built idx); [reflexivity|].
  destruct (is_mapping idx); [reflexivity|]. cbn [snd].
  match goal with
  | |- _mapping (if ?c then _ else _) = _ => destruct c
  end; cbn [_mapping set_n_items];
    now rewrite arena_memcpy_mapping, arena_store_mapping,
      allocate_size_mapping.
Qed.

Lemma add_items_mapping (items : list (Z * list Z)) :
  forall idx, _mapping (snd (add_items heap_garbage items idx)) = _mapping idx.
Proof.
  induction items as [|[item w] rest IH]; intro idx; [reflexivity|].
  cbn [add_items]. pose proof (add_item_mapping idx item w) as H1.
  destruct (add_item heap_garbage item w idx) as [[| | |] idx1];
    cbn [snd] in *; try exact H1.
  now rewrite IH.
Qed.

(** The effect of one [add_item] with a valid id on a heap block: it
    succeeds, [_n_items] becomes the larger of its old value and
    [item + 1], the record's [n_descendants] is 1, its vector words are
    those of [w], and every other word of the old block is untouched. *)
Lemma add_item_spec idx (item : Z) (w : list Z) :
  unbuilt_inv f idx -> is_mapping idx = false -> valid_id item ->
  exists idx',
    add_item heap_garbage item w idx = (Ok, idx') /\
    unbuilt_inv f idx' /\
    _n_items idx' = Z.max (_n_items idx) (item + 1) /\
    _nodes_size idx <= _nodes_size idx' /\
    item + 1 <= _nodes_size idx' /\
    _random idx' = _random idx /\ _K idx' = _K idx /\
    _n_nodes idx' = _n_nodes idx /\ _fd idx' = _fd idx /\
    arena idx' ((3 + f) * item) = 1 /\
    (forall a, (3 + f) * item + 3 <= a < (3 + f) * item + 3 + f ->
       arena idx' a = nth (Z.to_nat (a - ((3 + f) * item + 3))) w 0) /\
    (forall a, 0 <= a < (3 + f) * _nodes_size idx ->
       ~ ((3 + f) * item + 3 <= a < (3 + f) * item + 3 + f) ->
       a <> (3 + f) * item ->
       arena idx' a = arena idx a).
Proof.
  intros Hinv Hmap Hid.
  pose proof Hinv as (Hb & Hf & Hs & Hr & Hrange & Hblock).
  destruct (allocate_size_spec idx (item + 1) Hinv) as (m1 & N & Ha & HN & HN' & Hm1);
    [unfold valid_id in Hid; lia|].
  unfold add_item.
  rewrite Hb, Hmap, (to_int_succ_id _ Hid), Ha.
  unfold arena_store, arena_memcpy. members.
  rewrite (node_offset_inv idx _ Hinv), Hf.
  change (offsetof_v / 4) with 3.
  set (base := (3 + f) * item).
  set (m3 := memcpy (store m1 (base + 0) 1) (base + 3) (ptr_of w) f).
  assert (Hm3base : m3 base = 1).
  { unfold m3, memcpy, store.
    destruct ((base + 3 <=? base) && (base <? base + 3 + f)) eqn:E.
    - apply andb_true_iff in E. destruct E as [E _]. apply Z.leb_le in E. lia.
    - rewrite Z.add_0_r, Z.eqb_refl. reflexivity. }
  assert (Hm3v : forall a, base + 3 <= a < base + 3 + f ->
                   m3 a = nth (Z.to_nat (a - (base + 3))) w 0).
  { intros a Hrange'. unfold m3, memcpy.
    destruct ((base + 3 <=? a) && (a <? base + 3 + f)) eqn:E.
    - unfold ptr_of. reflexivity.
    - apply andb_false_iff in E. destruct E as [E|E];
        [apply Z.leb_gt in E | apply Z.ltb_ge in E]; lia. }
  assert (Hm3old : forall a, 0 <= a < (3 + f) * _nodes_size idx ->
                     ~ (base + 3 <= a < base + 3 + f) -> a <> base ->
                     m3 a = arena idx a).
  { intros a Hcap Hnv Hnb. unfold m3, memcpy, store.
    destruct ((base + 3 <=? a) && (a <? base + 3 + f)) eqn:E.
    - apply andb_true_iff in E. destruct E as [E1 E2].
      apply Z.leb_le in E1. apply Z.ltb_lt in E2. lia.
    - destruct (a =? base + 0) eqn:E3; [apply Z.eqb_eq in E3; lia|].
      exact (Hm1 a Hcap). }
  clearbody m3.
  destruct (item >=? _n_items idx) eqn:E;
    (eexists; split; [reflexivity|]); unfold unbuilt_inv, arena; members;
    (destruct (Z.geb_spec item (_n_items idx)); [|]; try discriminate);
    repeat split; try assumption; try lia; try discriminate.
Qed.

Lemma capacity_mono (item N : Z) :
  0 <= item -> item + 1 <= N -> (3 + f) * item + 3 + f <= (3 + f) * N.
Proof.
  intros H0 H1.
  assert ((3 + f) * (item + 1) <= (3 + f) * N)
    by (apply Z.mul_le_mono_nonneg_l; lia).
  lia.
Qed.

(** The arena after a whole [add_item] sequence holds, at every word the
    sequence has stored, the word stored there last. *)
Lemma add_items_spec (items : list (Z * list Z)) :
  forall idx (before : Z -> option Z),
    unbuilt_inv f idx -> _mapping idx = None ->
    Forall (fun p => valid_id (fst p)) items ->
    (forall a x, before a = Some x ->
       0 <= a < (3 + f) * _nodes_size idx /\ arena idx a = x) ->
    exists idx',
      add_items heap_garbage items idx = (Ok, idx') /\
      unbuilt_inv f idx' /\
      _n_items idx' = Z.max (_n_items idx) (1 + max_id items) /\
      _random idx' = _random idx /\ _K idx' = _K idx /\
      _n_nodes idx' = _n_nodes idx /\ _fd idx' = _fd idx /\
      (forall a x, stored f items a (before a) = Some x ->
         0 <= a < (3 + f) * _nodes_size idx' /\ arena idx' a = x).
Proof.
  induction items as [|[item w] rest IH];
    intros idx before Hinv Hmap Hvalid Hbefore.
  - exists idx. cbn [add_items stored max_id map fold_right].
    pose proof Hinv as (_ & _ & _ & _ & Hrange & _).
    split; [reflexivity|]. split; [assumption|]. split; [lia|].
    repeat (split; [reflexivity|]). exact Hbefore.
  - inversion Hvalid as [|p ps Hid Hrest]; subst. cbn [fst] in Hid.
    destruct (add_item_spec idx item w Hinv (heap_is_no_mapping idx Hmap) Hid)
      as (idx1 & Hadd & Hinv1 & Hn1 & Hcap1 & Hroom1 & Hrand1 & HK1 & Hnn1
          & Hfd1 & Hbase & Hv & Hold).
    assert (Hmap1 : _mapping idx1 = None).
    { pose proof (add_item_mapping idx item w) as Hm.
      rewrite Hadd in Hm. cbn [snd] in Hm. congruence. }
    set (before' := fun a =>
      if ((3 + f) * item + 3 <=? a) && (a <? (3 + f) * item + 3 + f)
      then Some (nth (Z.to_nat (a - ((3 + f) * item + 3))) w 0)
      else if a =? (3 + f) * item then Some 1 else before a).
    assert (Hid' := Hid). unfold valid_id in Hid'.
    pose proof (capacity_mono item (_nodes_size idx1) (proj1 Hid') Hroom1) as Hc.
    assert (Hpos : 0 <= (3 + f) * item) by (apply Z.mul_nonneg_nonneg; lia).
    destruct (IH idx1 before' Hinv1 Hmap1 Hrest) as (idx' & Hadds & Hinv' & Hn' & Hrand'
        & HK' & Hnn' & Hfd' & Hstored).
    { intros a x. unfold before'.
      destruct (((3 + f) * item + 3 <=? a) && (a <? (3 + f) * item + 3 + f)) eqn:E.
      - apply andb_true_iff in E. destruct E as [E1 E2].
        apply Z.leb_le in E1. apply Z.ltb_lt in E2.
        intro Hx. inversion Hx; subst. split; [lia|]. apply Hv. lia.
      - assert (Hnv : ~ ((3 + f) * item + 3 <= a < (3 + f) * item + 3 + f)).
        { apply andb_false_iff in E. destruct E as [E|E];
            [apply Z.leb_gt in E | apply Z.ltb_ge in E]; lia. }
        destruct (a =? (3 + f) * item) eqn:E3.
        + apply Z.eqb_eq in E3. intro Hx. inversion Hx; subst.
          split; [lia|]. exact Hbase.
        + apply Z.eqb_neq in E3. intro Hx.
          destruct (Hbefore a x Hx) as [Hin Hval].
          assert ((3 + f) * _nodes_size idx <= (3 + f) * _nodes_size idx1)
            by (apply Z.mul_le_mono_nonneg_l; lia).
          split; [lia|]. rewrite (Hold a Hin Hnv E3). exact Hval. }
    exists idx'. cbn [add_items]. rewrite Hadd.
    split; [exact Hadds|]. split; [exact Hinv'|].
    split.
    { rewrite Hn', Hn1. unfold max_id. cbn [map fold_right fst].
      fold (max_id rest). lia. }
    split; [congruence|]. split; [congruence|]. split; [congruence|].
    split; [congruence|].
    intros a x Hx. apply Hstored. cbn [stored] in Hx. exact Hx.
Qed.

(** Once a word is stored, later items keep it stored. *)
Lemma stored_some (items : list (Z * list Z)) (a : Z) :
  forall before, before <> None -> stored f items a before <> None.
Proof.
  induction items as [|[item w] rest IH]; intros before Hb; [exact Hb|].
  cbn [stored]. apply IH.
  destruct (((3 + f) * item + 3 <=? a) && (a <? (3 + f) * item + 3 + f));
    [discriminate|].
  destruct (a =? (3 + f) * item); [discriminate | exact Hb].
Qed.

(** Records of different ids do not overlap. *)
Lemma records_apart (i j k : Z) :
  i <> j -> 0 <= k < 3 + f ->
  ~ ((3 + f) * i <= (3 + f) * j + k < (3 + f) * i + 3 + f).
Proof.
  intros Hij Hk [H1 H2].
  destruct (Z.lt_ge_cases i j) as [Hlt|Hge].
  - assert ((3 + f) * (i + 1) <= (3 + f) * j)
      by (apply Z.mul_le_mono_nonneg_l; lia). lia.
  - assert ((3 + f) * (j + 1) <= (3 + f) * i)
      by (apply Z.mul_le_mono_nonneg_l; lia). lia.
Qed.

(** The [n_descendants] word of an added id stays 1. *)
Lemma stored_n_descendants (items : list (Z * list Z)) (j : Z) :
  forall before,
    In j (map fst items) \/ before = Some 1 ->
    stored f items ((3 + f) * j) before = Some 1.
Proof.
  induction items as [|[item w] rest IH]; intros before H.
  - destruct H as [[]|H]. exact H.
  - cbn [stored]. apply IH.
    destruct (Z.eq_dec item j) as [->|Hne].
    + right.
      destruct (((3 + f) * j + 3 <=? (3 + f) * j)
                && ((3 + f) * j <? (3 + f) * j + 3 + f)) eqn:E.
      * apply andb_true_iff in E. destruct E as [E _]. apply Z.leb_le in E. lia.
      * now rewrite Z.eqb_refl.
    + destruct H as [H|H].
      * left. cbn [map fst] in H. destruct H as [H|H]; [contradiction|exact H].
      * right.
        pose proof (records_apart item j 0 Hne ltac:(lia)) as Hap.
        rewrite Z.add_0_r in Hap.
        destruct (((3 + f) * item + 3 <=? (3 + f) * j)
                  && ((3 + f) * j <? (3 + f) * item + 3 + f)) eqn:E.
        -- apply andb_true_iff in E. destruct E as [E1 E2].
           apply Z.leb_le in E1. apply Z.ltb_lt in E2. exfalso. apply Hap. lia.
        -- destruct ((3 + f) * j =? (3 + f) * item) eqn:E3; [|exact H].
           apply Z.eqb_eq in E3. exfalso. apply Hap. lia.
Qed.

(** Every vector word of an added id has been stored. *)
Lemma stored_vector_word (items : list (Z * list Z)) (j k : Z) :
  forall before,
    In j (map fst items) -> 0 <= k < f ->
    stored f items ((3 + f) * j + 3 + k) before <> None.
Proof.
  induction items as [|[item w] rest IH]; intros before H Hk; [destruct H|].
  cbn [stored]. cbn [map fst] in H.
  destruct (Z.eq_dec item j) as [->|Hne].
  - apply stored_some.
    destruct (((3 + f) * j + 3 <=? (3 + f) * j + 3 + k)
              && ((3 + f) * j + 3 + k <? (3 + f) * j + 3 + f)) eqn:E;
      [discriminate|].
    apply andb_false_iff in E. destruct E as [E|E];
      [apply Z.leb_gt in E | apply Z.ltb_ge in E]; lia.
  - apply IH; [|exact Hk]. destruct H as [H|H]; [contradiction|exact H].
Qed.

End AddItem.

(** ** Reading records of an unbuilt index *)

Section Records.
Context {R : Type} {RS : Random R}.
Variable f : Z.
Hypothesis f_range : 0 <= f <= JAKUBELIB_V_ARRAY_SIZE.

Implicit Type idx : JakubeIndex R.

Lemma get_item_words idx (i : Z) :
  _s idx / 4 = 3 + f -> _f idx = f ->
  get_item idx i =
  map (fun k => arena idx ((3 + f) * i + 3 + Z.of_nat k)) (seq 0 (Z.to_nat f)).
Proof.
  intros Hs Hf. unfold get_item, read_words, v, _get, get_node_ptr, node_offset.
  rewrite Hs, Hf. change (offsetof_v / 4) with 3.
  apply map_ext. intro k. f_equal. lia.
Qed.

Lemma n_descendants_word idx (i : Z) :
  _s idx / 4 = 3 + f ->
  n_descendants (_get idx i) = arena idx ((3 + f) * i).
Proof.
  intro Hs. unfold n_descendants, _get, get_node_ptr, node_offset.
  rewrite Hs. f_equal. lia.
Qed.

Lemma read_back_from (w : list Z) :
  forall pre : list Z,
    map (fun k => nth k (pre ++ w) 0) (seq (length pre) (length w)) = w.
Proof.
  induction w as [|x w IH]; intro pre; [reflexivity|].
  cbn [length seq map]. f_equal.
  - rewrite app_nth2 by lia. now rewrite Nat.sub_diag.
  - specialize (IH (pre ++ [x])). rewrite <- app_assoc in IH.
    rewrite length_app in IH. cbn [length app] in IH.
    rewrite Nat.add_1_r in IH. exact IH.
Qed.

Lemma read_back (w : list Z) :
  map (fun k => nth k w 0) (seq 0 (length w)) = w.
Proof. exact (read_back_from w []). Qed.

Lemma max_id_ge (items : list (Z * list Z)) : -1 <= max_id items.
Proof.
  induction items as [|[item w] rest IH]; unfold max_id in *; cbn; lia.
Qed.

Lemma max_id_bound (items : list (Z * list Z)) (j : Z) :
  In j (map fst items) -> j <= max_id items.
Proof.
  induction items as [|[item w] rest IH]; [intros []|].
  unfold max_id in *. cbn [map fst fold_right]. intros [->|H]; [lia|].
  specialize (IH H). lia.
Qed.

End Records.

(** ** What [build] returns when it returns *)

Lemma build_returned {R : Type} {RS : Random R} (heap_garbage stack_garbage : Mem)
    (fuel : nat) (q : Z) (idx idx' : JakubeIndex R) :
  _built idx = false ->
  build heap_garbage stack_garbage fuel q idx = Done (Ok, idx') ->
  q <= 0 /\ idx' = set_built true (set_n_nodes (_n_items idx) idx).
Proof.
  intros Hb H.
  destruct (Z.eq_dec (_n_items idx) 0) as [Hz|Hnz].
  - unfold build in H. rewrite Hb in H. apply Z.eqb_eq in Hz. rewrite Hz in H.
    discriminate H.
  - destruct (Z.le_gt_cases q 0) as [Hq|Hq].
    + split; [exact Hq|]. unfold build in H. rewrite Hb in H.
      apply Z.eqb_neq in Hnz. rewrite Hnz in H.
      replace (Z.to_nat q) with 0%nat in H by lia. cbn [build_trees] in H.
      now inversion H.
    + rewrite (build_diverges heap_garbage stack_garbage fuel q idx Hb Hnz) in H
        by lia.
      discriminate H.
Qed.

(** C10.  From a fresh index, every sequence of [add_item] calls with valid
    ids succeeds and leaves [_n_items] at one plus the largest id added;
    adding an id of the sequence again succeeds, makes [get_item] return the
    new vector for it, and changes neither [_n_items] nor the stored vector
    of any other item. *)
Theorem add_item_count_and_overwrite :
  forall (R : Type) (RS : Random R) (heap_garbage : Mem) (f : Z)
         (items : list (Z * list Z)),
    0 <= f <= JAKUBELIB_V_ARRAY_SIZE ->
    Forall (fun p => valid_id (fst p)) items ->
    exists idx : JakubeIndex R,
      add_items heap_garbage items (new_index f) = (Ok, idx) /\
      _n_items idx = 1 + max_id items /\
      forall (j : Z) (w : list Z),
        In j (map fst items) -> length w = Z.to_nat f ->
        exists idx',
          add_item heap_garbage j w idx = (Ok, idx') /\
          _n_items idx' = _n_items idx /\
          get_item idx' j = w /\
          forall i, 0 <= i < _n_items idx -> i <> j ->
                    get_item idx' i = get_item idx i.
Proof.
  intros R RS hg f items Hf Hvalid.
  destruct (add_items_spec hg f Hf items (new_index f) (fun _ => None)
              (new_index_inv f Hf) eq_refl Hvalid)
    as (idx & Hadds & Hinv & Hn & _); [discriminate|].
  assert (Hmap : _mapping idx = None).
  { pose proof (add_items_mapping hg items (new_index f)) as Hm.
    rewrite Hadds in Hm. exact Hm. }
  exists idx. split; [exact Hadds|].
  change (_n_items (new_index f)) with 0 in Hn.
  pose proof (max_id_ge items) as Hge.
  split; [lia|].
  intros j w Hj Hw.
  pose proof (max_id_bound items j Hj) as Hjmax.
  assert (Hjid : valid_id j).
  { rewrite Forall_forall in Hvalid. apply in_map_iff in Hj.
    destruct Hj as ([j' w'] & <- & Hin). exact (Hvalid _ Hin). }
  destruct (add_item_spec hg f Hf idx j w Hinv
              (heap_is_no_mapping idx Hmap) Hjid)
    as (idx' & Hadd & Hinv' & Hn' & _ & _ & _ & _ & _ & _ & _ & Hv & Hold).
  exists idx'. split; [exact Hadd|]. split; [lia|].
  pose proof Hinv as (_ & Hfi & _ & _ & Hrange & _).
  pose proof Hinv' as (_ & Hfi' & _).
  split.
  - rewrite (get_item_words f idx' j (stride_inv f idx' Hinv') Hfi').
    etransitivity; [|apply (read_back w)]. rewrite Hw.
    apply map_ext_in. intros k Hk. apply in_seq in Hk.
    rewrite Hv by lia. f_equal. lia.
  - intros i Hi Hij.
    rewrite (get_item_words f idx' i (stride_inv f idx' Hinv') Hfi').
    rewrite (get_item_words f idx i (stride_inv f idx Hinv) Hfi).
    apply map_ext_in. intros k Hk. apply in_seq in Hk.
    pose proof (capacity_mono f Hf i (_nodes_size idx) ltac:(lia) ltac:(lia)).
    assert (0 <= (3 + f) * i) by (apply Z.mul_nonneg_nonneg; lia).
    pose proof (records_apart f Hf j i (3 + Z.of_nat k)
                  ltac:(congruence) ltac:(lia)) as Hap.
    apply Hold; lia.
Qed.

(** A run of C10's theorem: the doctest items, then item 1 again. *)
Lemma add_item_count_and_overwrite_witness :
  (0 <= 1 <= JAKUBELIB_V_ARRAY_SIZE) /\
  Forall (fun p => valid_id (fst p)) doctest_items /\
  exists idx : JakubeIndex Replay,
    add_items zero_garbage doctest_items (new_index 1) = (Ok, idx) /\
    _n_items idx = 1 + max_id doctest_items /\
    forall (j : Z) (w : list Z),
      In j (map fst doctest_items) -> length w = Z.to_nat 1 ->
      exists idx',
        add_item zero_garbage j w idx = (Ok, idx') /\
        _n_items idx' = _n_items idx /\
        get_item idx' j = w /\
        forall i, 0 <= i < _n_items idx -> i <> j ->
                  get_item idx' i = get_item idx i.
Proof.
  assert (H1 : 0 <= 1 <= JAKUBELIB_V_ARRAY_SIZE)
    by (unfold JAKUBELIB_V_ARRAY_SIZE; lia).
  assert (H2 : Forall (fun p => valid_id (fst p)) doctest_items)
    by (repeat constructor; unfold INT_MAX; simpl; lia).
  split; [exact H1|]. split; [exact H2|].
  exact (add_item_count_and_overwrite Replay ReplayRandom zero_garbage 1
           doctest_items H1 H2).
Defined.

(** ** The arena after [build] *)

Lemma set_seed_inv {R : Type} {RS : Random R} (f seed : Z) :
  0 <= f <= JAKUBELIB_V_ARRAY_SIZE ->
  unbuilt_inv f (set_seed seed (new_index f) : JakubeIndex R).
Proof. intro Hf. exact (new_index_inv f Hf). Qed.

(** What a sequence of valid [add_item] calls followed by a returning
    [build] leaves behind, from any unbuilt index without items. *)
Lemma added_then_built {R : Type} {RS : Random R}
    (heap_garbage stack_garbage : Mem) (f : Z) (items : list (Z * list Z))
    (q : Z) (fuel : nat) (idx0 idx' : JakubeIndex R) :
  0 <= f <= JAKUBELIB_V_ARRAY_SIZE ->
  Forall (fun p => valid_id (fst p)) items ->
  unbuilt_inv f idx0 -> _mapping idx0 = None -> _n_items idx0 = 0 ->
  build heap_garbage stack_garbage fuel q
    (snd (add_items heap_garbage items idx0)) = Done (Ok, idx') ->
  q <= 0 /\
  _n_items idx' = 1 + max_id items /\
  _n_nodes idx' = _n_items idx' /\
  _roots idx' = [] /\
  _random idx' = _random idx0 /\
  _s idx' / 4 = 3 + f /\ _f idx' = f /\
  (forall a x, stored f items a None = Some x -> arena idx' a = x).
Proof.
  intros Hf Hvalid Hinv0 Hmap0 Hn0 Hbuild.
  destruct (add_items_spec heap_garbage f Hf items idx0 (fun _ => None)
              Hinv0 Hmap0 Hvalid)
    as (idx & Hadds & Hinv & Hn & Hrand & _ & _ & _ & Hstored); [discriminate|].
  rewrite Hadds in Hbuild. cbn [snd] in Hbuild.
  pose proof Hinv as (Hb & Hfi & _ & Hroots & _).
  destruct (build_returned _ _ _ _ _ _ Hb Hbuild) as [Hq ->].
  pose proof (max_id_ge items). unfold arena. members.
  split; [exact Hq|]. split; [lia|]. split; [reflexivity|].
  split; [exact Hroots|]. split; [exact Hrand|].
  split; [exact (stride_inv f idx Hinv)|]. split; [exact Hfi|].
  intros a x Hx. exact (proj2 (Hstored a x Hx)).
Qed.



(** ** Queries on an index without trees *)

Lemma query_without_roots {R : Type} (stack_garbage : Mem) (fuel : nat)
    (idx : JakubeIndex R) (qv : Mem) (n search_k : Z) :
  _roots idx = [] ->
  _get_all_nns stack_garbage fuel idx qv n search_k
  = match fuel with
    | O => OutOfFuel
    | S _ => Done ([], [])
    end.
Proof.
  intro Hr. unfold _get_all_nns, candidates. rewrite Hr. cbn [fold_left].
  destruct fuel as [|fuel]; [reflexivity|].
  cbn [gather top length].
  assert (Hrank : forall v_node,
            rank idx v_node n [] = (@nil Z, @nil Z)).
  { intro v_node. unfold rank, partial_sort.
    cbn [std_sort fold_right nns_dist_loop length].
    rewrite firstn_skipn, firstn_nil. reflexivity. }
  destruct (Z.of_nat 0 <? effective_search_k idx n search_k);
    now rewrite Hrank.
Qed.


(** ** Distances *)

(** C7 (code defect).  Items [0xFFFFFFFF] and [0] at dimension 1: the xor of
    the two words is the [int] -1, its conversion to the 64-bit argument of
    [__builtin_popcountll] is all ones, and [get_distance] returns 64.  The
    population count of the xor of the stored vectors is 32, which is also
    the largest value [f * bits_per_word] allows. *)
Theorem get_distance_sign_extension :
  forall (R : Type) (RS : Random R) (heap_garbage : Mem),
    let idx : JakubeIndex R :=
      snd (add_items heap_garbage sign_bit_items (new_index 1)) in
    get_distance idx 0 1 = 64 /\
    spec_distance (get_item idx 0) (get_item idx 1) = 32 /\
    _f idx * (sizeof_T * 8) = 32.
Proof.
  intros R RS hg idx. subst idx.
  split; [vm_compute; reflexivity|]. split; vm_compute; reflexivity.
Qed.

(** ** Loading *)

(** [unload] makes its release call on the block whether or not the
    descriptor was open. *)
Lemma release_mismatch_fd {R : Type} (idx : JakubeIndex R) :
  release_mismatch (if _fd idx =? 0 then idx else set_fd 0 idx)
  = release_mismatch idx.
Proof. now destruct (_fd idx =? 0). Qed.

(** [unload] in one step, when the release call matches the block. *)
Lemma unload_spec {R : Type} {RS : Random R} (idx : JakubeIndex R) :
  release_mismatch idx = None ->
  unload idx
  = (Ok,
     mkIndex (_f idx) (_s idx) 0 None 0 0 [] (_K idx) (_random idx)
             (_verbose idx) false 0 None).
Proof.
  intro H. unfold unload. rewrite release_mismatch_fd, H.
  destruct idx as [f s ni nodes nn ns roots K random vb built fd mp].
  members. destruct (Z.eqb_spec fd 0) as [->|Hfd]; reflexivity.
Qed.

(** [unload] when it does not. *)
Lemma unload_undefined {R : Type} {RS : Random R} (idx : JakubeIndex R)
    (what : string) :
  release_mismatch idx = Some what ->
  unload idx = (Undefined what, if _fd idx =? 0 then idx else set_fd 0 idx).
Proof. intro H. unfold unload. now rewrite release_mismatch_fd, H. Qed.

(** What a successful [load] leaves: a built index on a mapping, with the
    descriptor it has opened. *)
Lemma load_ok_shape {R : Type} {RS : Random R} (stack_garbage : Mem)
    (os : OS) (filename : string) (idx B : JakubeIndex R) :
  load stack_garbage os filename idx = (Ok, B) ->
  _built B = true /\ _nodes B <> None /\ _mapping B <> None /\
  _fd B = next_fd os /\ release_mismatch B = None.
Proof.
  unfold load.
  destruct (unload idx) as [[| | |] idx0]; try discriminate;
    (destruct (files os filename) as [file|]; [|discriminate]);
    (destruct (negb _); [discriminate|]);
    (destruct (_ <? 0); [discriminate|]);
    (destruct (mmap_fails _); [discriminate|]);
    intro H; inversion H; subst B; clear H;
    unfold release_mismatch; members;
    repeat split; discriminate || reflexivity.
Qed.

(** The way into the state the claim about [load] overlooks: [unbuild]
    clears [_built] and leaves [_nodes] on the mapping, so the next
    [unload] picks [free]. *)
Lemma unbuild_of_loaded_mismatch {R : Type} {RS : Random R}
    (stack_garbage : Mem) (os : OS) (filename : string)
    (idx B : JakubeIndex R) :
  load stack_garbage os filename idx = (Ok, B) ->
  fst (unbuild B) = Ok /\
  release_mismatch (snd (unbuild B))
  = Some "free of a block obtained from mmap"%string.
Proof.
  intro H. destruct (load_ok_shape _ _ _ _ _ H) as (Hb & Hn & Hm & _ & _).
  unfold unbuild. rewrite Hb. cbn [negb fst snd].
  split; [reflexivity|]. unfold release_mismatch. members.
  destruct (_nodes B); [|contradiction].
  destruct (_mapping B); [reflexivity | contradiction].
Qed.

(** On an index whose block [unload] releases with the matching call: when
    the first word of the file differs from the dimension of the index,
    [load] reports "Dimension mismatch" and returns with the index
    unloaded: no block, no roots, no items, not built, no descriptor. *)
Lemma load_dimension_mismatch {R : Type} {RS : Random R}
    (stack_garbage : Mem) (os : OS) (filename : string)
    (idx : JakubeIndex R) (f_file : Z) (rest : list Z) :
  release_mismatch idx = None ->
  files os filename = Some (f_file :: rest) ->
  f_file <> _f idx ->
  fst (load stack_garbage os filename idx) = Error "Dimension mismatch" /\
  _nodes (snd (load stack_garbage os filename idx)) = None /\
  _roots (snd (load stack_garbage os filename idx)) = [] /\
  _built (snd (load stack_garbage os filename idx)) = false /\
  _n_items (snd (load stack_garbage os filename idx)) = 0 /\
  _fd (snd (load stack_garbage os filename idx)) = 0.
Proof.
  intros Hrel Hfile Hne.
  unfold load. rewrite (unload_spec idx Hrel), Hfile. cbn [nth]. members.
  apply Z.eqb_neq in Hne. rewrite Hne. cbn [negb fst snd]. members.
  repeat split; reflexivity.
Qed.

(** C8 (code defect).  [load] starts with [unload()], and [unload] chooses
    between [munmap] and [free] by [_built].  Load the forest file, then
    [unbuild]: both succeed, and the index is left not built with [_nodes]
    still on the mapping.  Whatever file the next [load] is asked for, one
    of another dimension included, its [unload()] calls [free] on the
    mapping before the file is opened: no "Dimension mismatch" is
    reported, and the index is not unloaded. *)
Theorem load_after_unbuild_frees_the_mapping :
  forall (R : Type) (RS : Random R) (stack_garbage : Mem),
    let B : JakubeIndex R :=
      snd (load stack_garbage forest_os "forest" (new_index 1)) in
    let U := snd (unbuild B) in
    fst (load stack_garbage forest_os "forest" (new_index 1 : JakubeIndex R))
    = Ok /\
    fst (unbuild B) = Ok /\
    files other_dim_os "other" = Some other_dim_file /\
    nth 0 other_dim_file 0 <> _f U /\
    load stack_garbage other_dim_os "other" U
    = (Undefined "free of a block obtained from mmap", set_fd 0 U) /\
    _nodes (set_fd 0 U) <> None /\
    forall (os : OS) (filename : string),
      load stack_garbage os filename U
      = (Undefined "free of a block obtained from mmap", set_fd 0 U).
Proof.
  intros R RS sg B U.
  assert (Hload : load sg forest_os "forest" (new_index 1 : JakubeIndex R)
                  = (Ok, B)) by (vm_compute; reflexivity).
  destruct (unbuild_of_loaded_mismatch sg _ _ _ _ Hload) as [Hub Hrel].
  fold U in Hrel.
  assert (Hany : forall (os : OS) (filename : string),
            load sg os filename U
            = (Undefined "free of a block obtained from mmap", set_fd 0 U)).
  { intros os filename. unfold load.
    rewrite (unload_undefined U _ Hrel). reflexivity. }
  split; [now rewrite Hload|]. split; [exact Hub|].
  split; [reflexivity|]. split; [vm_compute; discriminate|].
  split; [apply Hany|]. split; [vm_compute; discriminate | exact Hany].
Qed.

(** C5 (code defect).  One item [3] at dimension 1, [build(0)], [save],
    then [load] into a fresh index of the same dimension.  All three calls
    succeed.  [save] has put six header words in front of the arena and
    [load] maps the file from offset 0, so record 0 of the loaded index is
    the first four header words: [get_item(0)] is [1] (the stored
    [_nodes_size]) where the saved index answers [3]. *)
Theorem save_load_reads_header_as_records :
  forall (R : Type) (RS : Random R) (heap_garbage stack_garbage : Mem),
  exists (A : JakubeIndex R) (os' : OS) (B : JakubeIndex R),
    build heap_garbage stack_garbage 1 0
      (snd (add_items heap_garbage single_item (new_index 1))) = Done (Ok, A) /\
    save empty_os "index" A = (Ok, os') /\
    load stack_garbage os' "index" (new_index 1) = (Ok, B) /\
    get_item A 0 = [3] /\
    get_item B 0 = [1].
Proof.
  intros R RS hg sg.
  set (A := set_built true
              (set_n_nodes 1
                 (snd (add_items hg single_item (new_index 1 : JakubeIndex R))))).
  set (os' := snd (save empty_os "index" A)).
  exists A, os', (snd (load sg os' "index" (new_index 1 : JakubeIndex R))).
  split; [vm_compute; reflexivity|]. split; [vm_compute; reflexivity|].
  split; [vm_compute; reflexivity|]. split; vm_compute; reflexivity.
Qed.

(** ** The candidate-gathering loop *)

Section Gather.
Context {R : Type}.
Variable idx : JakubeIndex R.
Variable qv : Mem.

(** The candidate list only grows. *)
Lemma gather_grows (fuel : nat) :
  forall (bound : Z) (q : list (Z * Z)) (nns out : list Z),
    gather fuel idx qv bound q nns = Done out ->
    (length nns <= length out)%nat.
Proof.
  induction fuel as [|fuel IH]; intros bound q nns out H; [discriminate H|].
  cbn [gather] in H.
  destruct (Z.of_nat (length nns) <? bound); [|inversion H; subst; lia].
  destruct (top q) as [[d i]|]; [|inversion H; subst; lia].
  destruct ((n_descendants (_get idx i) =? 1) && (i <? _n_items idx)).
  - apply IH in H. rewrite length_app in H. lia.
  - destruct (n_descendants (_get idx i) <=? _K idx).
    + apply IH in H. rewrite length_app in H. lia.
    + now apply IH in H.
Qed.

(** A bound that the gathered list stays below plays no part: any other
    such bound gives the same list. *)
Lemma gather_bound_irrelevant (fuel : nat) :
  forall (b1 b2 : Z) (q : list (Z * Z)) (nns out : list Z),
    gather fuel idx qv b1 q nns = Done out ->
    Z.of_nat (length out) < b1 ->
    Z.of_nat (length out) < b2 ->
    gather fuel idx qv b2 q nns = Done out.
Proof.
  induction fuel as [|fuel IH]; intros b1 b2 q nns out H H1 H2;
    [discriminate H|].
  pose proof (gather_grows _ _ _ _ _ H) as Hlen.
  cbn [gather] in H |- *.
  destruct (Z.ltb_spec (Z.of_nat (length nns)) b1) as [Hb1|Hb1];
    [|inversion H; subst; lia].
  destruct (Z.ltb_spec (Z.of_nat (length nns)) b2) as [Hb2|Hb2]; [|lia].
  destruct (top q) as [[d i]|]; [|exact H].
  destruct ((n_descendants (_get idx i) =? 1) && (i <? _n_items idx)).
  - exact (IH _ _ _ _ _ H H1 H2).
  - destruct (n_descendants (_get idx i) <=? _K idx);
      exact (IH _ _ _ _ _ H H1 H2).
Qed.

Lemma effective_search_k_default (n : Z) :
  0 <= n * Z.of_nat (length (_roots idx)) <= INT_MAX ->
  effective_search_k idx n (-1) = n * Z.of_nat (length (_roots idx)) /\
  effective_search_k idx n (n * Z.of_nat (length (_roots idx)))
  = n * Z.of_nat (length (_roots idx)).
Proof.
  unfold INT_MAX. intro H. unfold effective_search_k.
  change (-1 =? -1) with true. cbv iota.
  destruct (Z.eqb_spec (n * Z.of_nat (length (_roots idx))) (-1)); [lia|].
  set (x := n * Z.of_nat (length (_roots idx))) in *.
  rewrite !(to_size_t_id x) by lia.
  rewrite to_int_id by lia. rewrite ?(to_size_t_id x) by lia.
  split; reflexivity.
Qed.

Lemma effective_search_k_negative (n search_k : Z) :
  - 2 ^ 31 <= search_k < -1 ->
  effective_search_k idx n search_k = 2 ^ 64 + search_k.
Proof.
  intro H. unfold effective_search_k.
  destruct (Z.eqb_spec search_k (-1)); [lia|].
  unfold to_size_t. symmetry.
  apply (Z.mod_unique search_k (2 ^ 64) (-1)); lia.
Qed.

End Gather.

(** C3, counterexample.  The forest read from [forest_file] has one tree
    over items 0 and 1.  For the query [1] with [n = 1], a [search_k] of
    [n * n_trees = 1] stops after the first candidate and answers item 0 at
    distance 4; a [search_k] of -2 gathers both candidates and answers
    item 1 at distance 1. *)
Lemma negative_search_k_example :
  get_nns_by_vector zero_garbage 10 forest_index [1] 1
    (1 * get_n_trees forest_index) = Done ([0], [4]) /\
  get_nns_by_vector zero_garbage 10 forest_index [1] 1 (-2) = Done ([1], [1]) /\
  get_nns_by_vector zero_garbage 10 forest_index [1] 1 (-2)
  <> get_nns_by_vector zero_garbage 10 forest_index [1] 1
       (1 * get_n_trees forest_index).
Proof.
  split; [vm_compute; reflexivity|]. split; [vm_compute; reflexivity|].
  vm_compute. discriminate.
Qed.

(** C3 (amended).  Only [search_k = -1] is replaced by
    [n * number_of_trees].  Any other negative [search_k] reaches the loop
    guard as [(size_t)search_k = 2^64 + search_k]; a candidate list shorter
    than [2^64 - 2^31] never meets that bound, so the loop ends only when
    the queue is empty, and all these values of [search_k] give the same
    answer. *)
Theorem only_minus_one_means_default :
  forall (R : Type) (idx : JakubeIndex R) (stack_garbage : Mem) (fuel : nat)
         (qv : Mem) (n search_k : Z) (out : list Z),
    0 <= n * Z.of_nat (length (_roots idx)) <= INT_MAX ->
    - 2 ^ 31 <= search_k < -1 ->
    candidates fuel idx qv n search_k = Done out ->
    Z.of_nat (length out) < 2 ^ 64 - 2 ^ 31 ->
    _get_all_nns stack_garbage fuel idx qv n (-1)
    = _get_all_nns stack_garbage fuel idx qv n
        (n * Z.of_nat (length (_roots idx))) /\
    effective_search_k idx n search_k = 2 ^ 64 + search_k /\
    forall search_k',
      - 2 ^ 31 <= search_k' < -1 ->
      _get_all_nns stack_garbage fuel idx qv n search_k'
      = _get_all_nns stack_garbage fuel idx qv n search_k.
Proof.
  intros R idx sg fuel qv n sk out Hn Hsk Hout Hlen.
  split; [|split].
  - unfold _get_all_nns, candidates.
    destruct (effective_search_k_default idx n Hn) as [-> ->]. reflexivity.
  - exact (effective_search_k_negative idx n sk Hsk).
  - intros sk' Hsk'. unfold _get_all_nns. rewrite Hout.
    unfold candidates in *.
    rewrite (effective_search_k_negative idx n sk Hsk) in Hout.
    rewrite (effective_search_k_negative idx n sk' Hsk').
    rewrite (gather_bound_irrelevant idx qv fuel _ (2 ^ 64 + sk') _ _ _ Hout)
      by lia.
    reflexivity.
Qed.

Lemma only_minus_one_means_default_witness :
  (0 <= 1 * Z.of_nat (length (_roots forest_index)) <= INT_MAX) /\
  (- 2 ^ 31 <= -2 < -1) /\
  candidates 10 forest_index (ptr_of [1]) 1 (-2) = Done [0; 1] /\
  Z.of_nat (length [0; 1]) < 2 ^ 64 - 2 ^ 31 /\
  _get_all_nns zero_garbage 10 forest_index (ptr_of [1]) 1 (-3)
  = _get_all_nns zero_garbage 10 forest_index (ptr_of [1]) 1 (-2).
Proof.
  assert (H1 : 0 <= 1 * Z.of_nat (length (_roots forest_index)) <= INT_MAX)
    by (vm_compute; split; discriminate).
  assert (H2 : - 2 ^ 31 <= -2 < -1) by lia.
  assert (H3 : candidates 10 forest_index (ptr_of [1]) 1 (-2) = Done [0; 1])
    by (vm_compute; reflexivity).
  assert (H4 : Z.of_nat (length [0; 1]) < 2 ^ 64 - 2 ^ 31)
    by (vm_compute; reflexivity).
  split; [exact H1|]. split; [exact H2|]. split; [exact H3|].
  split; [exact H4|].
  refine (proj2 (proj2 (only_minus_one_means_default Replay forest_index
            zero_garbage 10 (ptr_of [1]) 1 (-2) [0; 1] H1 H2 H3 H4)) (-3) _).
  lia.
Defined.

(** ** Sorting *)

Section InsertionSort.
Context {A : Type}.
Variable leb : A -> A -> bool.
Hypothesis leb_total : forall a b, leb a b = true \/ leb b a = true.
Hypothesis leb_trans :
  forall a b c, leb a b = true -> leb b c = true -> leb a c = true.

Lemma insert_sorted_perm (x : A) (l : list A) :
  Permutation (x :: l) (insert_sorted leb x l).
Proof.
  induction l as [|y l IH]; cbn [insert_sorted]; [reflexivity|].
  destruct (leb x y); [reflexivity|].
  rewrite perm_swap. now apply perm_skip.
Qed.

Lemma std_sort_perm (l : list A) : Permutation l (std_sort leb l).
Proof.
  induction l as [|x l IH]; cbn [std_sort fold_right]; [reflexivity|].
  fold (std_sort leb l).
  rewrite <- insert_sorted_perm. now apply perm_skip.
Qed.

Lemma insert_sorted_sorted (x : A) (l : list A) :
  StronglySorted (fun a b => leb a b = true) l ->
  StronglySorted (fun a b => leb a b = true) (insert_sorted leb x l).
Proof.
  induction l as [|y l IH]; intro Hs; cbn [insert_sorted].
  - constructor; constructor.
  - apply StronglySorted_inv in Hs. destruct Hs as [Hs Hall].
    destruct (leb x y) eqn:E.
    + constructor; [constructor; assumption|].
      constructor; [exact E|].
      rewrite Forall_forall in Hall |- *. intros z Hz.
      exact (leb_trans _ _ _ E (Hall z Hz)).
    + constructor; [exact (IH Hs)|].
      apply (Permutation_Forall (insert_sorted_perm x l)).
      constructor; [|exact Hall].
      destruct (leb_total x y) as [H|H]; [congruence|exact H].
Qed.

Lemma std_sort_sorted (l : list A) :
  StronglySorted (fun a b => leb a b = true) (std_sort leb l).
Proof.
  induction l as [|x l IH]; cbn [std_sort fold_right]; [constructor|].
  now apply insert_sorted_sorted.
Qed.

End InsertionSort.

Lemma In_firstn {A : Type} (x : A) (p : nat) :
  forall l : list A, In x (firstn p l) -> In x l.
Proof.
  induction p as [|p IH]; intros l H; [destruct H|].
  destruct l as [|y l]; [destruct H|].
  cbn [firstn] in H. destruct H as [H|H]; [now left | right; exact (IH l H)].
Qed.

Lemma StronglySorted_firstn {A : Type} (Rel : A -> A -> Prop) (p : nat)
    (l : list A) :
  StronglySorted Rel l -> StronglySorted Rel (firstn p l).
Proof.
  revert l. induction p as [|p IH]; intros l Hs; [constructor|].
  destruct l as [|x l]; [constructor|].
  apply StronglySorted_inv in Hs. destruct Hs as [Hs Hall].
  cbn [firstn]. constructor; [exact (IH l Hs)|].
  rewrite Forall_forall in Hall |- *. intros z Hz.
  apply Hall. exact (In_firstn z p l Hz).
Qed.

Lemma pair_leb_total (a b : Z * Z) :
  pair_leb a b = true \/ pair_leb b a = true.
Proof.
  unfold pair_leb, pair_ltb.
  destruct (Z.ltb_spec (fst a) (fst b)), (Z.ltb_spec (fst b) (fst a)),
    (Z.eqb_spec (fst a) (fst b)), (Z.eqb_spec (fst b) (fst a)),
    (Z.ltb_spec (snd a) (snd b)), (Z.ltb_spec (snd b) (snd a));
    cbn; auto; lia.
Qed.

Lemma pair_leb_trans (a b c : Z * Z) :
  pair_leb a b = true -> pair_leb b c = true -> pair_leb a c = true.
Proof.
  unfold pair_leb, pair_ltb.
  destruct (Z.ltb_spec (fst b) (fst a)), (Z.eqb_spec (fst b) (fst a)),
    (Z.ltb_spec (snd b) (snd a)),
    (Z.ltb_spec (fst c) (fst b)), (Z.eqb_spec (fst c) (fst b)),
    (Z.ltb_spec (snd c) (snd b)),
    (Z.ltb_spec (fst c) (fst a)), (Z.eqb_spec (fst c) (fst a)),
    (Z.ltb_spec (snd c) (snd a));
    cbn; intros; try reflexivity; try discriminate; lia.
Qed.

Lemma pair_leb_lex (a b : Z * Z) :
  pair_leb a b = true -> snd a <> snd b -> lex_lt a b.
Proof.
  unfold pair_leb, pair_ltb, lex_lt.
  destruct (Z.ltb_spec (fst b) (fst a)), (Z.eqb_spec (fst b) (fst a)),
    (Z.ltb_spec (snd b) (snd a)); cbn; intros; try discriminate; lia.
Qed.

(** A list sorted by [pair_leb] whose ids are pairwise distinct is strictly
    sorted by (distance, id). *)
Lemma sorted_distinct_lex (l : list (Z * Z)) :
  StronglySorted (fun a b => pair_leb a b = true) l ->
  NoDup (map snd l) ->
  StronglySorted lex_lt l.
Proof.
  induction l as [|x l IH]; intros Hs Hnd; [constructor|].
  apply StronglySorted_inv in Hs. destruct Hs as [Hs Hall].
  cbn [map] in Hnd. apply NoDup_cons_iff in Hnd. destruct Hnd as [Hnin Hnd].
  constructor; [exact (IH Hs Hnd)|].
  rewrite Forall_forall in Hall |- *. intros y Hy.
  apply pair_leb_lex; [exact (Hall y Hy)|].
  intro Heq. apply Hnin. rewrite Heq. now apply in_map.
Qed.

Lemma combine_fst_snd (l : list (Z * Z)) :
  combine (map fst l) (map snd l) = l.
Proof.
  induction l as [|[a b] l IH]; cbn; [reflexivity|]. now rewrite IH.
Qed.

(** ** Ranking the candidates *)

Section Rank.
Context {R : Type}.
Variable idx : JakubeIndex R.
Variable v_node : Node.

(** On an ascending list whose elements are not below [last], the loop
    keeps each id once: its output ids ascend strictly, lie above [last],
    and are the elements other than [last] whose record has
    [n_descendants == 1]. *)
Lemma nns_dist_loop_spec (l : list Z) :
  forall last : Z,
    StronglySorted (fun a b => (a <=? b) = true) l ->
    (forall x, In x l -> last <= x) ->
    let out := map snd (nns_dist_loop idx v_node l last) in
    StronglySorted Z.lt out /\
    (forall x, In x out -> last < x) /\
    (forall x, In x out <->
               In x l /\ x <> last /\ n_descendants (_get idx x) = 1).
Proof.
  induction l as [|j rest IH]; intros last Hs Hlast out.
  - subst out. cbn. split; [constructor|]. split; [intros x []|].
    intro x. split; [intros []|intros [[] _]].
  - apply StronglySorted_inv in Hs. destruct Hs as [Hs Hall].
    rewrite Forall_forall in Hall.
    assert (Hrest : forall x, In x rest -> j <= x).
    { intros x Hx. apply Z.leb_le. exact (Hall x Hx). }
    pose proof (Hlast j (or_introl eq_refl)) as Hj.
    subst out. cbn [nns_dist_loop].
    destruct (Z.eqb_spec j last) as [->|Hne].
    + destruct (IH last Hs) as (H1 & H2 & H3).
      { intros x Hx. exact (Hrest x Hx). }
      split; [exact H1|]. split; [exact H2|].
      intro x. rewrite H3. cbn [In]. intuition congruence.
    + destruct (IH j Hs Hrest) as (H1 & H2 & H3).
      destruct (Z.eqb_spec (n_descendants (_get idx j)) 1) as [Hv|Hv].
      * cbn [map snd]. split; [|split].
        -- constructor; [exact H1|]. rewrite Forall_forall. exact H2.
        -- intros x [<-|Hx]; [lia|]. specialize (H2 x Hx). lia.
        -- intro x. cbn [In]. rewrite H3. split.
           ++ intros [<-|(Hx & Hxj & Hxv)]; [repeat split; auto|].
              specialize (Hrest x Hx). repeat split; auto; lia.
           ++ intros ([<-|Hx] & Hxl & Hxv); [now left|].
              destruct (Z.eq_dec j x) as [->|Hjx]; [now left|].
              right. repeat split; auto.
      * split; [exact H1|]. split.
        -- intros x Hx. specialize (H2 x Hx). lia.
        -- intro x. rewrite H3. cbn [In]. split.
           ++ intros (Hx & Hxj & Hxv). specialize (Hrest x Hx).
              repeat split; auto; lia.
           ++ intros ([<-|Hx] & Hxl & Hxv); [contradiction|].
              repeat split; auto. intros ->. contradiction.
Qed.

Lemma strictly_sorted_NoDup (l : list Z) : StronglySorted Z.lt l -> NoDup l.
Proof.
  induction l as [|x l IH]; intro Hs; [constructor|].
  apply StronglySorted_inv in Hs. destruct Hs as [Hs Hall].
  constructor; [|exact (IH Hs)].
  rewrite Forall_forall in Hall. intro Hx. specialize (Hall x Hx). lia.
Qed.

Lemma Zleb_total (a b : Z) : (a <=? b) = true \/ (b <=? a) = true.
Proof. destruct (Z.leb_spec a b), (Z.leb_spec b a); auto; lia. Qed.

Lemma Zleb_trans (a b c : Z) :
  (a <=? b) = true -> (b <=? c) = true -> (a <=? c) = true.
Proof. rewrite !Z.leb_le. lia. Qed.

(** The ids paired with distances are the distinct value-node candidates,
    each once. *)
Lemma nns_dist_ids (nns : list Z) :
  Forall (fun j => 0 <= j) nns ->
  NoDup (map snd (nns_dist_loop idx v_node (std_sort Z.leb nns) (-1))) /\
  length (nns_dist_loop idx v_node (std_sort Z.leb nns) (-1))
  = length (value_candidates idx nns).
Proof.
  intro Hpos. rewrite Forall_forall in Hpos.
  pose proof (std_sort_perm Z.leb nns) as Hperm.
  destruct (nns_dist_loop_spec (std_sort Z.leb nns) (-1)
              (std_sort_sorted Z.leb Zleb_total Zleb_trans nns))
    as (H1 & _ & H3).
  { intros x Hx. apply (Permutation_in _ (Permutation_sym Hperm)) in Hx.
    specialize (Hpos x Hx). lia. }
  pose proof (strictly_sorted_NoDup _ H1) as Hnd.
  split; [exact Hnd|].
  rewrite <- (length_map snd).
  apply Permutation_length.
  apply NoDup_Permutation; [exact Hnd | apply NoDup_nodup |].
  intro x. rewrite H3. unfold value_candidates.
  rewrite nodup_In, filter_In, Z.eqb_eq. split.
  - intros (Hx & _ & Hv). split; [|exact Hv].
    exact (Permutation_in _ (Permutation_sym Hperm) Hx).
  - intros (Hx & Hv). split; [exact (Permutation_in _ Hperm Hx)|].
    split; [|exact Hv]. specialize (Hpos x Hx). lia.
Qed.

(** The answer [rank] computes from a candidate list. *)
Lemma rank_shape (n : Z) (nns : list Z) :
  Forall (fun j => 0 <= j) nns ->
  let ids := fst (rank idx v_node n nns) in
  let dists := snd (rank idx v_node n nns) in
  length ids
  = Z.to_nat (Z.min n (Z.of_nat (length (value_candidates idx nns)))) /\
  length dists = length ids /\
  StronglySorted lex_lt (combine dists ids).
Proof.
  intros Hpos ids dists.
  destruct (nns_dist_ids nns Hpos) as [Hnd Hlen].
  subst ids dists. unfold rank. cbn [fst snd].
  set (nd := nns_dist_loop idx v_node (std_sort Z.leb nns) (-1)) in *.
  set (m := Z.of_nat (length nd)).
  set (p := Z.to_nat (if n <? m then n else m)).
  unfold partial_sort. rewrite firstn_skipn.
  pose proof (std_sort_perm pair_leb nd) as Hperm.
  assert (Hp : (p <= length (std_sort pair_leb nd))%nat).
  { rewrite <- (Permutation_length Hperm). subst p m.
    destruct (Z.ltb_spec n (Z.of_nat (length nd))); lia. }
  assert (Hpeq : p = Z.to_nat (Z.min n
                       (Z.of_nat (length (value_candidates idx nns))))).
  { rewrite <- Hlen. subst p m.
    destruct (Z.ltb_spec n (Z.of_nat (length nd))); f_equal; lia. }
  rewrite !length_map, length_firstn.
  split; [lia|]. split; [reflexivity|].
  change (map (fun x : Z * Z => Hamming.normalized_distance (fst x)))
    with (map (@fst Z Z)).
  rewrite combine_fst_snd.
  apply StronglySorted_firstn. apply sorted_distinct_lex.
  - exact (std_sort_sorted pair_leb pair_leb_total pair_leb_trans nd).
  - apply (Permutation_NoDup (Permutation_map snd Hperm)). exact Hnd.
Qed.

End Rank.

(** ** Termination of the traversal *)

Section Traversal.
Context {R : Type}.
Variable idx : JakubeIndex R.
Variable qv : Mem.
Variable rk : Z -> nat.
Hypothesis ranked : forest_ranked idx rk.

Lemma entry_weight_pos (x : Z * Z) : (1 <= entry_weight rk x)%nat.
Proof.
  unfold entry_weight. rewrite Nat.pow_succ_r'.
  pose proof (Nat.pow_nonzero 2 (rk (snd x)) ltac:(lia)). lia.
Qed.

Lemma child_weight (d d' : Z) (c i : Z) :
  (rk c < rk i)%nat ->
  (2 * entry_weight rk (d', c) + 2 <= entry_weight rk (d, i) + 1)%nat.
Proof.
  intro H. unfold entry_weight. cbn [snd].
  pose proof (Nat.pow_le_mono_r 2 (S (rk c)) (rk i) ltac:(lia) ltac:(lia)).
  rewrite (Nat.pow_succ_r' 2 (rk i)).
  pose proof (Nat.pow_nonzero 2 (rk c) ltac:(lia)).
  rewrite (Nat.pow_succ_r' 2 (rk c)) in *. lia.
Qed.

Lemma top_In (q : list (Z * Z)) (x : Z * Z) : top q = Some x -> In x q.
Proof.
  revert x. induction q as [|y q IH]; intros x H; [discriminate H|].
  cbn [top] in H. destruct (top q) as [z|].
  - inversion H; subst. destruct (pair_ltb y z); [right; now apply IH | now left].
  - inversion H; subst. now left.
Qed.

Lemma remove_one_weight (x : Z * Z) (q : list (Z * Z)) :
  In x q ->
  (queue_weight rk (remove_one x q) + entry_weight rk x = queue_weight rk q)%nat.
Proof.
  induction q as [|y q IH]; intro H; [destruct H|].
  cbn [remove_one queue_weight fold_right].
  destruct ((fst x =? fst y) && (snd x =? snd y)) eqn:E.
  - apply andb_true_iff in E. destruct E as [_ E]. apply Z.eqb_eq in E.
    fold (queue_weight rk q). unfold entry_weight. rewrite E. lia.
  - destruct H as [->|H].
    + rewrite !Z.eqb_refl in E. discriminate E.
    + cbn [queue_weight fold_right]. fold (queue_weight rk (remove_one x q)).
      fold (queue_weight rk q). specialize (IH H). lia.
Qed.

Lemma remove_one_Forall (P : Z * Z -> Prop) (x : Z * Z) (q : list (Z * Z)) :
  Forall P q -> Forall P (remove_one x q).
Proof.
  induction q as [|y q IH]; intro H; [constructor|].
  inversion H; subst. cbn [remove_one].
  destruct ((fst x =? fst y) && (snd x =? snd y)); [assumption|].
  constructor; [assumption | now apply IH].
Qed.

(** On a forest the gathering loop ends: a number of iterations above the
    weight of the queue is enough, whatever the bound, and every candidate
    it gathers is a record of the arena. *)
Lemma gather_terminates (fuel : nat) :
  forall (bound : Z) (q : list (Z * Z)) (nns : list Z),
    Forall (fun x => in_arena idx (snd x)) q ->
    Forall (in_arena idx) nns ->
    (queue_weight rk q < fuel)%nat ->
    exists out,
      gather fuel idx qv bound q nns = Done out /\ Forall (in_arena idx) out.
Proof.
  induction fuel as [|fuel IH]; intros bound q nns Hq Hnns Hw; [lia|].
  cbn [gather].
  destruct (Z.of_nat (length nns) <? bound); [|now eexists].
  destruct (top q) as [[d i]|] eqn:Etop; [|now eexists].
  pose proof (top_In q _ Etop) as Hin.
  pose proof (remove_one_weight (d, i) q Hin) as Hrem.
  pose proof (entry_weight_pos (d, i)) as Hpos.
  pose proof (remove_one_Forall _ (d, i) q Hq) as Hq'.
  assert (Hi : in_arena idx i).
  { rewrite Forall_forall in Hq. exact (Hq _ Hin). }
  destruct ranked as [_ Hrec]. destruct (Hrec i Hi) as [Hgroup Hinternal].
  unfold pop. rewrite Etop.
  destruct ((n_descendants (_get idx i) =? 1) && (i <? _n_items idx)) eqn:E1.
  { apply IH; [exact Hq' | | lia].
    apply Forall_app. split; [exact Hnns | now constructor]. }
  destruct (n_descendants (_get idx i) <=? _K idx) eqn:E2.
  { apply IH; [exact Hq' | | lia].
    apply Forall_app. split; [exact Hnns|].
    apply Hgroup. unfold is_group, is_value. now rewrite E1, E2. }
  destruct Hinternal as (Hc0 & Hc1 & Hr0 & Hr1);
    [unfold is_internal, is_value; now rewrite E1, E2|].
  apply IH; [| exact Hnns |].
  - unfold push. constructor; [exact Hc0|]. constructor; [exact Hc1|]. exact Hq'.
  - unfold push. cbn [queue_weight fold_right].
    fold (queue_weight rk (remove_one (d, i) q)).
    set (m := if Hamming.margin (_get idx i) qv (_f idx) then 1 else 0).
    pose proof (child_weight d (Hamming.pq_distance d m 0) _ i Hr0).
    pose proof (child_weight d (Hamming.pq_distance d m 1) _ i Hr1).
    lia.
Qed.

Lemma initial_queue_in_arena (roots : list Z) :
  forall q : list (Z * Z),
    Forall (in_arena idx) roots ->
    Forall (fun x => in_arena idx (snd x)) q ->
    Forall (fun x => in_arena idx (snd x))
      (fold_left (fun q r => push q (Hamming.pq_initial_value, r)) roots q).
Proof.
  induction roots as [|r roots IH]; intros q Hr Hq; [exact Hq|].
  inversion Hr; subst. cbn [fold_left]. apply IH; [assumption|].
  unfold push. now constructor.
Qed.

(** The traversal of every query on a forest returns, with candidates that
    are records of the arena. *)
Lemma candidates_return (n search_k : Z) :
  exists fuel0, forall fuel, (fuel0 <= fuel)%nat ->
    exists nns,
      candidates fuel idx qv n search_k = Done nns /\
      Forall (in_arena idx) nns.
Proof.
  set (q0 := fold_left (fun q r => push q (Hamming.pq_initial_value, r))
                       (_roots idx) []).
  exists (S (queue_weight rk q0)). intros fuel Hfuel.
  unfold candidates. fold q0.
  apply gather_terminates; [| constructor | lia].
  apply initial_queue_in_arena; [exact (proj1 ranked) | constructor].
Qed.

End Traversal.

(** ** Queries on a well-formed forest *)

Section WellFormed.
Context {R : Type}.
Variable idx : JakubeIndex R.
Variable qv : Mem.
Variable rk : Z -> nat.
Hypothesis wf : forest_wf idx rk.

Lemma wf_ranked : forest_ranked idx rk.
Proof.
  destruct wf as (_ & _ & _ & Hitems & _ & Hroots & Hrec).
  split; [exact Hroots|]. intros i Hi.
  destruct (Hrec i Hi) as [Hgroup Hinternal]. split.
  - intro Hg. destruct (Hgroup Hg) as [_ Hids].
    revert Hids. apply Forall_impl. unfold in_arena. intros j Hj. lia.
  - intro Hint. destruct (Hinternal Hint) as (H0 & H1 & H2 & H3 & _).
    split; [exact H0|]. split; [exact H1|]. split; [exact H2 | exact H3].
Qed.

(** Every candidate the traversal gathers on a well-formed forest is the
    id of an item. *)
Lemma gather_items (fuel : nat) :
  forall (bound : Z) (q : list (Z * Z)) (nns out : list Z),
    Forall (fun x => in_arena idx (snd x)) q ->
    Forall (fun j => 0 <= j < _n_items idx) nns ->
    gather fuel idx qv bound q nns = Done out ->
    Forall (fun j => 0 <= j < _n_items idx) out.
Proof.
  induction fuel as [|fuel IH]; intros bound q nns out Hq Hnns Hrun;
    [discriminate Hrun|].
  cbn [gather] in Hrun.
  destruct (Z.of_nat (length nns) <? bound);
    [|inversion Hrun; subst; exact Hnns].
  destruct (top q) as [[d i]|] eqn:Etop;
    [|inversion Hrun; subst; exact Hnns].
  pose proof (top_In q _ Etop) as Hin.
  pose proof (remove_one_Forall _ (d, i) q Hq) as Hq'.
  assert (Hi : in_arena idx i).
  { rewrite Forall_forall in Hq. exact (Hq _ Hin). }
  destruct wf as (_ & _ & _ & _ & _ & _ & Hrec).
  destruct (Hrec i Hi) as [Hgroup Hinternal].
  unfold pop in Hrun. rewrite Etop in Hrun.
  destruct ((n_descendants (_get idx i) =? 1) && (i <? _n_items idx)) eqn:E1.
  { apply (IH _ _ _ _ Hq') in Hrun; [exact Hrun|].
    apply Forall_app. split; [exact Hnns|]. constructor; [|constructor].
    apply andb_true_iff in E1. destruct E1 as [_ E1].
    apply Z.ltb_lt in E1. unfold in_arena in Hi. lia. }
  destruct (n_descendants (_get idx i) <=? _K idx) eqn:E2.
  { apply (IH _ _ _ _ Hq') in Hrun; [exact Hrun|].
    apply Forall_app. split; [exact Hnns|].
    apply Hgroup. unfold is_group, is_value. now rewrite E1, E2. }
  destruct Hinternal as (Hc0 & Hc1 & _);
    [unfold is_internal, is_value; now rewrite E1, E2|].
  apply IH in Hrun; [exact Hrun | | exact Hnns].
  unfold push. constructor; [exact Hc0|]. constructor; [exact Hc1|]. exact Hq'.
Qed.

Lemma candidates_items (fuel : nat) (n search_k : Z) (nns : list Z) :
  candidates fuel idx qv n search_k = Done nns ->
  Forall (fun j => 0 <= j < _n_items idx) nns.
Proof.
  unfold candidates. apply gather_items; [|constructor].
  apply initial_queue_in_arena; [exact (proj1 wf_ranked) | constructor].
Qed.

(** Among ids of items the two tests for a value node agree. *)
Lemma value_candidates_of_items (nns : list Z) :
  Forall (fun j => 0 <= j < _n_items idx) nns ->
  value_candidates idx nns = value_node_candidates idx nns.
Proof.
  intro H. unfold value_candidates, value_node_candidates. f_equal.
  apply filter_ext_in. intros j Hj. rewrite Forall_forall in H.
  specialize (H j Hj). unfold is_value.
  destruct (Z.ltb_spec j (_n_items idx)) as [_|Hge]; [|lia].
  now rewrite andb_true_r.
Qed.

End WellFormed.

(** The forest read from [forest_file] is well formed: record 2, the
    root, is above the two item records and splits on bit 31. *)
Lemma forest_index_wf : forest_wf forest_index forest_rank.
Proof.
  split; [vm_compute; discriminate|]. split; [vm_compute; reflexivity|].
  split; [vm_compute; split; [discriminate | reflexivity]|].
  split; [vm_compute; split; discriminate|].
  split; [split; vm_compute; discriminate|].
  split.
  { change (_roots forest_index) with [2].
    constructor; [vm_compute; split; congruence | constructor]. }
  intros i Hi. unfold in_arena in Hi. change (_n_nodes forest_index) with 3 in Hi.
  assert (Hcases : i = 0 \/ i = 1 \/ i = 2) by lia.
  destruct Hcases as [H0|[H1|H2]]; subst i.
  - split; intro H; vm_compute in H; discriminate H.
  - split; intro H; vm_compute in H; discriminate H.
  - split; intro H; [vm_compute in H; discriminate H|].
    vm_compute. repeat split; try congruence; lia.
Qed.

(** On [cyclic_index] the traversal never ends: every queue it reaches
    holds the root only, and the root is not a leaf. *)
Lemma cyclic_gather_diverges (qv : Mem) (fuel : nat) :
  forall (q : list (Z * Z)),
    q <> [] -> Forall (fun x => snd x = 2) q ->
    gather fuel cyclic_index qv 1 q [] = OutOfFuel.
Proof.
  induction fuel as [|fuel IH]; intros q Hne Hall; [reflexivity|].
  cbn [gather length]. change (Z.of_nat 0 <? 1) with true. cbv iota.
  destruct (top q) as [[d i]|] eqn:Etop.
  - pose proof (top_In q _ Etop) as Hin.
    assert (Hi : i = 2).
    { rewrite Forall_forall in Hall. exact (Hall _ Hin). }
    subst i.
    change ((n_descendants (_get cyclic_index 2) =? 1)
            && (2 <? _n_items cyclic_index)) with false.
    change (n_descendants (_get cyclic_index 2) <=? _K cyclic_index)
      with false.
    cbv iota.
    change (children (_get cyclic_index 2) 1) with 2.
    change (children (_get cyclic_index 2) 0) with 2.
    apply IH; [discriminate|].
    unfold push, pop. rewrite Etop.
    constructor; [reflexivity|]. constructor; [reflexivity|].
    now apply remove_one_Forall.
  - destruct q as [|x q]; [contradiction|].
    cbn [top] in Etop. destruct (top q); discriminate Etop.
Qed.

Lemma cyclic_forest_never_answers :
  _built cyclic_index = true /\
  forall (stack_garbage : Mem) (fuel : nat),
    get_nns_by_vector stack_garbage fuel cyclic_index [0] 1 (-1) = OutOfFuel.
Proof.
  split; [vm_compute; reflexivity|]. intros sg fuel.
  unfold get_nns_by_vector, _get_all_nns, candidates.
  change (effective_search_k cyclic_index 1 (-1)) with 1.
  change (_roots cyclic_index) with [2]. cbn [fold_left].
  rewrite cyclic_gather_diverges; [reflexivity | discriminate |].
  unfold push. constructor; [reflexivity | constructor].
Qed.





(** ** What a loaded index reads as its first record *)

(** Whenever [load] succeeds, record 0 of the loaded index is the start of
    the file, that is, the header: its [n_descendants] is the stored [f],
    its two [children] are the stored [n_items] and [n_nodes]. *)
Lemma loaded_record_zero_is_header {R : Type} {RS : Random R}
    (stack_garbage : Mem) (os : OS) (filename : string)
    (idx B : JakubeIndex R) :
  load stack_garbage os filename idx = (Ok, B) ->
  n_descendants (_get B 0) = _f B /\
  children (_get B 0) 0 = _n_items B /\
  children (_get B 0) 1 = _n_nodes B.
Proof.
  unfold load.
  destruct (release_mismatch idx) as [what|] eqn:Hrel;
    [rewrite (unload_undefined idx what Hrel); discriminate|].
  rewrite (unload_spec idx Hrel).
  destruct (files os filename) as [file|]; [|discriminate].
  members.
  destruct (nth 0 file (stack_garbage 0) =? _f idx) eqn:Ef; [|discriminate].
  cbn [negb].
  destruct (nth 5 file (stack_garbage 1) <? 0); [discriminate|].
  destruct (mmap_fails _) eqn:Em; [discriminate|].
  intro H. inversion H; subst B; clear H.
  unfold n_descendants, children, _get, get_node_ptr, node_offset, arena.
  members. change (offsetof_children / 4) with 1.
  rewrite Z.mul_0_r. cbn [Z.add].
  destruct file as [|a [|b [|c rest]]];
    try (unfold mmap_fails in Em; cbn [nth] in Em;
         change (to_size_t 0) with 0 in Em; rewrite Z.mul_0_r in Em;
         discriminate Em).
  apply Z.eqb_eq in Ef. cbn [nth] in Ef.
  unfold mmap. cbn. auto.
Qed.

(** ** The distance away from the sign bit *)

Lemma count_fold (p : nat -> bool) (l : list nat) :
  forall acc : Z,
    fold_left (fun acc k => if p k then acc + 1 else acc) l acc
    = acc + Z.of_nat (length (filter p l)).
Proof.
  induction l as [|k l IH]; intro acc; cbn [fold_left filter]; [cbn; lia|].
  rewrite IH. destruct (p k); cbn [length]; lia.
Qed.

Lemma high_bits_clear (z : Z) (l : list nat) :
  0 <= z < 2 ^ 32 ->
  (forall k, In k l -> (32 <= k)%nat) ->
  filter (fun k => Z.testbit z (Z.of_nat k)) l = [].
Proof.
  intros Hz Hl. induction l as [|k l IH]; [reflexivity|].
  cbn [filter].
  assert (Hk : Z.testbit z (Z.of_nat k) = false).
  { rewrite <- (Z.mod_small z (2 ^ 32)) by lia.
    apply Z.mod_pow2_bits_high. specialize (Hl k (or_introl eq_refl)). lia. }
  rewrite Hk. apply IH. intros k' Hk'. apply Hl. now right.
Qed.

Lemma popcount_of_word (z : Z) :
  0 <= z < 2 ^ 31 ->
  Hamming.jakubelib_popcount (to_size_t z) = popcount32 z /\
  0 <= popcount32 z <= 32.
Proof.
  intro Hz. rewrite to_size_t_id by lia.
  unfold Hamming.jakubelib_popcount, popcount32.
  rewrite count_fold.
  change (seq 0 64) with (seq 0 32 ++ seq 32 32).
  rewrite filter_app, length_app.
  rewrite (high_bits_clear z (seq 32 32)) by
    (try lia; intros k Hk; apply in_seq in Hk; lia).
  cbn [length]. split; [lia|].
  pose proof (filter_length_le (fun k => Z.testbit z (Z.of_nat k)) (seq 0 32))
    as Hle.
  rewrite length_seq in Hle. lia.
Qed.

Lemma spec_distance_bound (x y : Node) (s n : nat) :
  (forall k, (s <= k < s + n)%nat ->
     0 <= Z.lxor (v x (Z.of_nat k)) (v y (Z.of_nat k)) < 2 ^ 31) ->
  0 <= spec_distance (map (fun k => v x (Z.of_nat k)) (seq s n))
                     (map (fun k => v y (Z.of_nat k)) (seq s n))
    <= 32 * Z.of_nat n.
Proof.
  revert s. induction n as [|n IH]; intros s H; [cbn; lia|].
  cbn [seq map spec_distance].
  destruct (popcount_of_word _ (H s ltac:(lia))) as [_ Hp].
  specialize (IH (S s) ltac:(intros k Hk; apply H; lia)). lia.
Qed.

Lemma distance_loop_spec (x y : Node) (n : nat) :
  forall (s : nat) (acc : Z),
    (forall k, (s <= k < s + n)%nat ->
       0 <= Z.lxor (v x (Z.of_nat k)) (v y (Z.of_nat k)) < 2 ^ 31) ->
    0 <= acc -> acc + 32 * Z.of_nat n < 2 ^ 64 ->
    Hamming.distance_loop x y (Z.of_nat s) n acc
    = acc + spec_distance (map (fun k => v x (Z.of_nat k)) (seq s n))
                          (map (fun k => v y (Z.of_nat k)) (seq s n)).
Proof.
  induction n as [|n IH]; intros s acc H Hacc Hroom; [cbn; lia|].
  cbn [Hamming.distance_loop seq map spec_distance].
  destruct (popcount_of_word _ (H s ltac:(lia))) as [-> Hp].
  rewrite to_size_t_id by lia.
  replace (Z.of_nat s + 1) with (Z.of_nat (S s)) by lia.
  rewrite IH; [lia | intros k Hk; apply H; lia | lia | lia].
Qed.

(** When no two corresponding words differ in their sign bit, the distance
    is the population count of the xor and lies in [0, f * 32]. *)
Lemma distance_without_sign_bit (x y : Node) (f : Z) :
  0 <= f <= JAKUBELIB_V_ARRAY_SIZE ->
  (forall k, 0 <= k < f -> 0 <= Z.lxor (v x k) (v y k) < 2 ^ 31) ->
  Hamming.distance x y f
  = spec_distance (read_words (v x) f) (read_words (v y) f) /\
  0 <= Hamming.distance x y f <= f * (sizeof_T * 8).
Proof.
  unfold JAKUBELIB_V_ARRAY_SIZE. intros Hf H.
  assert (H' : forall k, (0 <= k < 0 + Z.to_nat f)%nat ->
             0 <= Z.lxor (v x (Z.of_nat k)) (v y (Z.of_nat k)) < 2 ^ 31)
    by (intros k Hk; apply H; lia).
  pose proof (spec_distance_bound x y 0 (Z.to_nat f) H') as Hb.
  unfold Hamming.distance, read_words.
  pose proof (distance_loop_spec x y (Z.to_nat f) 0 0 H'
                ltac:(lia) ltac:(lia)) as Hd.
  change (Z.of_nat 0) with 0 in Hd. rewrite Hd.
  rewrite Z.add_0_l. rewrite to_int_id by lia.
  change (sizeof_T * 8) with 32. split; [reflexivity | lia].
Qed.

(* ================================================================= *)
(** * Further properties of the library *)

(** ** The metric *)

Lemma distance_loop_comm (x y : Node) (n : nat) :
  forall (i dist : Z),
    Hamming.distance_loop x y i n dist = Hamming.distance_loop y x i n dist.
Proof.
  induction n as [|n IH]; intros i dist; [reflexivity|].
  cbn [Hamming.distance_loop]. rewrite (Z.lxor_comm (v x i)). apply IH.
Qed.

Lemma popcount_zero : Hamming.jakubelib_popcount (to_size_t 0) = 0.
Proof. vm_compute. reflexivity. Qed.

Lemma distance_loop_self (x : Node) (n : nat) :
  forall i dist : Z,
    0 <= dist < 2 ^ 64 -> Hamming.distance_loop x x i n dist = dist.
Proof.
  induction n as [|n IH]; intros i dist Hd; [reflexivity|].
  cbn [Hamming.distance_loop]. rewrite Z.lxor_nilpotent, popcount_zero.
  rewrite Z.add_0_r, (to_size_t_id dist Hd). now apply IH.
Qed.


Lemma popcount_range (z : Z) : 0 <= Hamming.jakubelib_popcount z <= 64.
Proof.
  unfold Hamming.jakubelib_popcount. rewrite count_fold.
  pose proof (filter_length_le (fun k => Z.testbit z (Z.of_nat k)) (seq 0 64))
    as Hle.
  rewrite length_seq in Hle. lia.
Qed.

Lemma distance_loop_range (x y : Node) (n : nat) :
  forall (i dist : Z),
    0 <= dist -> dist + 64 * Z.of_nat n < 2 ^ 64 ->
    dist <= Hamming.distance_loop x y i n dist <= dist + 64 * Z.of_nat n.
Proof.
  induction n as [|n IH]; intros i dist H0 Hroom; [cbn; lia|].
  cbn [Hamming.distance_loop].
  pose proof (popcount_range (to_size_t (Z.lxor (v x i) (v y i)))) as Hp.
  rewrite (to_size_t_id (dist + _)) by lia.
  specialize (IH (i + 1)
    (dist + Hamming.jakubelib_popcount (to_size_t (Z.lxor (v x i) (v y i))))
    ltac:(lia) ltac:(lia)).
  lia.
Qed.

(** X2.  Whatever the words are, the distance of two records lies between
    0 and [64 * f]: each word pair adds at most the 64 bits of the widened
    xor. *)
Theorem get_distance_range :
  forall (R : Type) (idx : JakubeIndex R) (i j : Z),
    0 <= _f idx <= JAKUBELIB_V_ARRAY_SIZE ->
    0 <= get_distance idx i j <= 64 * _f idx.
Proof.
  intros R idx i j Hf. unfold JAKUBELIB_V_ARRAY_SIZE in Hf.
  unfold get_distance, Hamming.normalized_distance, Hamming.distance.
  pose proof (distance_loop_range (_get idx i) (_get idx j)
                (Z.to_nat (_f idx)) 0 0 ltac:(lia) ltac:(lia)) as H.
  rewrite to_int_id by lia. lia.
Qed.

Lemma get_distance_range_witness :
  (0 <= _f doctest_index <= JAKUBELIB_V_ARRAY_SIZE) /\
  0 <= get_distance doctest_index 0 2 <= 64 * _f doctest_index.
Proof.
  assert (H : 0 <= _f doctest_index <= JAKUBELIB_V_ARRAY_SIZE)
    by (vm_compute; split; discriminate).
  split; [exact H|].
  exact (get_distance_range Replay doctest_index 0 2 H).
Defined.

(** X3.  When no two corresponding words of two records differ in their
    sign bit, [get_distance] is the population count of the xor of the two
    vectors [get_item] returns, and lies between 0 and [32 * f]. *)
Theorem get_distance_is_popcount_of_xor :
  forall (R : Type) (idx : JakubeIndex R) (i j : Z),
    0 <= _f idx <= JAKUBELIB_V_ARRAY_SIZE ->
    (forall k, 0 <= k < _f idx ->
       0 <= Z.lxor (v (_get idx i) k) (v (_get idx j) k) < 2 ^ 31) ->
    get_distance idx i j = spec_distance (get_item idx i) (get_item idx j) /\
    0 <= get_distance idx i j <= 32 * _f idx.
Proof.
  intros R idx i j Hf Hsign.
  destruct (distance_without_sign_bit (_get idx i) (_get idx j) (_f idx)
              Hf Hsign) as [Heq Hrange].
  unfold get_distance, get_item, Hamming.normalized_distance.
  change (sizeof_T * 8) with 32 in Hrange. split; [exact Heq | lia].
Qed.

Lemma get_distance_is_popcount_of_xor_witness :
  (0 <= _f doctest_index <= JAKUBELIB_V_ARRAY_SIZE) /\
  (forall k, 0 <= k < _f doctest_index ->
     0 <= Z.lxor (v (_get doctest_index 0) k) (v (_get doctest_index 1) k)
       < 2 ^ 31) /\
  get_distance doctest_index 0 1
  = spec_distance (get_item doctest_index 0) (get_item doctest_index 1).
Proof.
  assert (H : 0 <= _f doctest_index <= JAKUBELIB_V_ARRAY_SIZE)
    by (vm_compute; split; discriminate).
  assert (H' : forall k, 0 <= k < _f doctest_index ->
     0 <= Z.lxor (v (_get doctest_index 0) k) (v (_get doctest_index 1) k)
       < 2 ^ 31).
  { intros k Hk. change (_f doctest_index) with 1 in Hk.
    assert (k = 0) by lia. subst k. vm_compute. split; [discriminate|reflexivity]. }
  split; [exact H|]. split; [exact H'|].
  exact (proj1 (get_distance_is_popcount_of_xor Replay doctest_index 0 1 H H')).
Defined.

(** X4.  The population count of the MSVC build, at the type it is
    instantiated with, is 0 for every argument: the masks [(T)~(T)0 / 3],
    [/ 15 * 3], [/ 255 * 15] and [/ 255] are all 0 when [T] is signed.  The
    distance of any two records is then 0. *)
Theorem cole_popcount_is_zero :
  (forall x : Z, cole_popcount x = 0) /\
  (forall (x y : Node) (f : Z), distance_msvc x y f = 0).
Proof.
  assert (Hc : forall x : Z, cole_popcount x = 0).
  { intro x. unfold cole_popcount.
    assert (H3 : all_ones_div 3 = 0) by (vm_compute; reflexivity).
    assert (H15 : all_ones_div 15 = 0) by (vm_compute; reflexivity).
    assert (H255 : all_ones_div 255 = 0) by (vm_compute; reflexivity).
    rewrite H3, H15, H255, Z.mul_0_r. vm_compute. reflexivity. }
  split; [exact Hc|].
  intros x y f. unfold distance_msvc.
  assert (Hl : forall n i dist, 0 <= dist < 2 ^ 64 ->
                 distance_loop_msvc x y i n dist = dist).
  { induction n as [|n IH]; intros i dist Hd; [reflexivity|].
    cbn [distance_loop_msvc]. rewrite Hc, Z.add_0_r, (to_size_t_id dist Hd).
    now apply IH. }
  rewrite Hl by lia. vm_compute. reflexivity.
Qed.

(** ** Split planes *)

Lemma word_high_bits (w m : Z) :
  is_word w -> 31 <= m -> Z.testbit w m = (w <? 0).
Proof.
  unfold is_word. intros Hw Hm.
  destruct (Z.ltb_spec w 0) as [Hneg|Hpos].
  - rewrite <- (Z.lnot_involutive w). rewrite Z.lnot_spec by lia.
    replace (Z.lnot w) with ((Z.lnot w) mod 2 ^ 31)
      by (apply Z.mod_small; unfold Z.lnot; lia).
    rewrite Z.mod_pow2_bits_high by lia. reflexivity.
  - rewrite <- (Z.mod_small w (2 ^ 31)) by lia.
    apply Z.mod_pow2_bits_high. lia.
Qed.

Lemma land_mask_test (w M k : Z) :
  0 <= k ->
  Z.testbit M k = true ->
  (forall m, 0 <= m -> Z.testbit M m = true -> Z.testbit w m = Z.testbit w k) ->
  negb (Z.land w M =? 0) = Z.testbit w k.
Proof.
  intros Hk HMk Hother.
  destruct (Z.testbit w k) eqn:Ew.
  - destruct (Z.eqb_spec (Z.land w M) 0) as [H0|H0]; [|reflexivity].
    assert (Hb : Z.testbit (Z.land w M) k = true)
      by (rewrite Z.land_spec, Ew, HMk; reflexivity).
    rewrite H0, Z.bits_0 in Hb. discriminate Hb.
  - assert (H0 : Z.land w M = 0).
    { apply Z.bits_inj_0. intro m. rewrite Z.land_spec.
      destruct (Z.lt_ge_cases m 0) as [Hm|Hm].
      - now rewrite (Z.testbit_neg_r w m Hm).
      - destruct (Z.testbit M m) eqn:EM; [|apply andb_false_r].
        now rewrite (Hother m Hm EM). }
    rewrite H0. reflexivity.
Qed.

Lemma mask_of_bit (w k : Z) :
  is_word w -> 0 <= k <= 31 ->
  negb (Z.land w (to_int (Z.shiftl 1 k)) =? 0) = Z.testbit w k.
Proof.
  intros Hw Hk. rewrite Z.shiftl_1_l.
  destruct (Z.eq_dec k 31) as [->|Hne].
  - assert (HM : to_int (2 ^ 31) = Z.lnot (Z.ones 31))
      by (vm_compute; reflexivity).
    rewrite HM.
    assert (Hbits : forall m, 0 <= m ->
              Z.testbit (Z.lnot (Z.ones 31)) m = negb (m <? 31)).
    { intros m Hm. rewrite Z.lnot_spec by lia.
      now rewrite Z.testbit_ones_nonneg by lia. }
    apply land_mask_test; [lia | now rewrite Hbits by lia |].
    intros m Hm HMm. rewrite Hbits in HMm by lia.
    apply negb_true_iff, Z.ltb_ge in HMm.
    now rewrite !word_high_bits by (assumption || lia).
  - assert (H2 : 2 ^ k < 2 ^ 31) by (apply Z.pow_lt_mono_r; lia).
    assert (H0 : 0 < 2 ^ k) by (apply Z.pow_pos_nonneg; lia).
    rewrite to_int_id by lia.
    apply land_mask_test; [lia | |].
    + rewrite Z.pow2_bits_eqb by lia. apply Z.eqb_refl.
    + intros m Hm HMm. rewrite Z.pow2_bits_eqb in HMm by lia.
      apply Z.eqb_eq in HMm. now subst.
Qed.

(** X5.  A split plane [b] tests one bit of the vector: word [b / 32],
    and within it the bit [31 - b mod 32], so plane 0 is the most
    significant bit of word 0 and plane 31 its lowest bit. *)
Theorem margin_tests_one_bit :
  forall (n : Node) (y : Mem) (f b : Z),
    v n 0 = b -> 0 <= b < 2 ^ 31 -> is_word (y (b / 32)) ->
    Hamming.margin n y f = Z.testbit (y (b / 32)) (31 - b mod 32).
Proof.
  intros n y f b Hb Hrange Hw. unfold Hamming.margin. rewrite Hb.
  change (sizeof_T * 8) with 32.
  rewrite (to_size_t_id b) by lia.
  assert (Hdiv : 0 <= b / 32 < 2 ^ 31).
  { split; [apply Z.div_pos; lia|].
    apply Z.div_lt_upper_bound; lia. }
  rewrite to_int_id by lia.
  pose proof (Z.mod_pos_bound b 32 ltac:(lia)) as Hmod.
  replace (32 - 1 - b mod 32) with (31 - b mod 32) by lia.
  apply mask_of_bit; [exact Hw | lia].
Qed.

Lemma margin_tests_one_bit_witness :
  v (set_v zero_garbage 0 31) 0 = 31 /\
  0 <= 31 < 2 ^ 31 /\
  is_word (ptr_of [6] (31 / 32)) /\
  Hamming.margin (set_v zero_garbage 0 31) (ptr_of [6]) 1
  = Z.testbit (ptr_of [6] (31 / 32)) (31 - 31 mod 32).
Proof.
  assert (H1 : v (set_v zero_garbage 0 31) 0 = 31) by reflexivity.
  assert (H2 : 0 <= 31 < 2 ^ 31) by lia.
  assert (H3 : is_word (ptr_of [6] (31 / 32)))
    by (vm_compute; split; [discriminate | reflexivity]).
  split; [exact H1|]. split; [exact H2|]. split; [exact H3|].
  exact (margin_tests_one_bit (set_v zero_garbage 0 31) (ptr_of [6]) 1 31
           H1 H2 H3).
Defined.

(** The plane is all [margin] reads of its first argument. *)
Lemma margin_plane_only (n n' : Node) (y : Mem) (f : Z) :
  v n 0 = v n' 0 -> Hamming.margin n y f = Hamming.margin n' y f.
Proof. intro H. unfold Hamming.margin. now rewrite H. Qed.

Lemma splits_plane_only (n n' : Node) (nodes : list Node) (f : Z) :
  v n 0 = v n' 0 -> Hamming.splits n nodes f = Hamming.splits n' nodes f.
Proof.
  intro H. unfold Hamming.splits, Hamming.count_margin.
  assert (Hf : filter (fun it => Hamming.margin n (v it) f) nodes
               = filter (fun it => Hamming.margin n' (v it) f) nodes).
  { apply filter_ext. intro it. now apply margin_plane_only. }
  now rewrite Hf.
Qed.

Lemma v_set_v (n : Node) (x : Z) : v (set_v n 0 x) 0 = x.
Proof. unfold v, set_v, store. now rewrite Z.eqb_refl. Qed.

Section CreateSplitFacts.
Context {R : Type} {RS : Random R}.

Lemma random_tries_found (tries : nat) (nodes : list Node) (f dim : Z) :
  forall (n : Node) (random : R),
    fst (fst (Hamming.random_tries tries nodes f dim n random)) = true ->
    Hamming.splits
      (snd (fst (Hamming.random_tries tries nodes f dim n random))) nodes f
    = true.
Proof.
  induction tries as [|tries IH]; intros n random H; [discriminate H|].
  cbn [Hamming.random_tries] in *.
  destruct (index (to_size_t dim) random) as [b random'].
  destruct (Hamming.splits (set_v n 0 (to_int b)) nodes f) eqn:E;
    [exact E | now apply IH].
Qed.

Lemma brute_force_finds (js : list Z) (nodes : list Node) (f j : Z) :
  forall n : Node,
    In j js ->
    Hamming.splits (set_v n 0 j) nodes f = true ->
    Hamming.splits (Hamming.brute_force js nodes f n) nodes f = true.
Proof.
  induction js as [|a js IH]; intros n Hin Hj; [destruct Hin|].
  cbn [Hamming.brute_force].
  destruct (Hamming.splits (set_v n 0 a) nodes f) eqn:E; [exact E|].
  destruct Hin as [->|Hin]; [congruence|].
  apply IH; [exact Hin|].
  rewrite <- Hj. apply splits_plane_only. now rewrite !v_set_v.
Qed.

(** X6.  Whenever some bit index below [f * 32] leaves nodes on both
    sides, the plane [create_split] returns leaves nodes on both sides too,
    whatever the generator draws: 20 random tries, then the scan of all bit
    indices. *)
Theorem create_split_separates :
  forall (nodes : list Node) (f : Z) (random : R) (n : Node) (j : Z),
    0 <= j < to_int (f * 8 * sizeof_T) ->
    Hamming.splits (set_v n 0 j) nodes f = true ->
    Hamming.splits (fst (Hamming.create_split nodes f random n)) nodes f
    = true.
Proof.
  intros nodes f random n j Hj Hsplit. unfold Hamming.create_split.
  pose proof (random_tries_found Hamming.max_iterations nodes f
                (to_int (f * 8 * sizeof_T)) n random) as Hfound.
  destruct (Hamming.random_tries Hamming.max_iterations nodes f
              (to_int (f * 8 * sizeof_T)) n random) as [[found n1] random1].
  cbn [fst snd] in Hfound.
  destruct found; [now apply Hfound|].
  cbn [fst]. apply (brute_force_finds _ nodes f j).
  - apply in_map_iff. exists (Z.to_nat j). split; [lia|].
    apply in_seq. lia.
  - rewrite <- Hsplit. apply splits_plane_only. now rewrite !v_set_v.
Qed.

End CreateSplitFacts.

Lemma create_split_separates_witness :
  (0 <= 28 < to_int (1 * 8 * sizeof_T)) /\
  Hamming.splits (set_v zero_garbage 0 28) doctest_nodes 1 = true /\
  Hamming.splits
    (fst (Hamming.create_split doctest_nodes 1 ([] : Replay) zero_garbage))
    doctest_nodes 1 = true.
Proof.
  assert (H1 : 0 <= 28 < to_int (1 * 8 * sizeof_T))
    by (vm_compute; split; [discriminate | reflexivity]).
  assert (H2 : Hamming.splits (set_v zero_garbage 0 28) doctest_nodes 1 = true)
    by (vm_compute; reflexivity).
  split; [exact H1|]. split; [exact H2|].
  exact (create_split_separates doctest_nodes 1 [] zero_garbage 28 H1 H2).
Defined.

(** ** The two ways [_make_tree] distributes indices *)

Lemma filter_partition_perm {A : Type} (p : A -> bool) (l : list A) :
  Permutation (filter (fun x => negb (p x)) l ++ filter p l) l.
Proof.
  induction l as [|x l IH]; [constructor|].
  cbn [filter]. destruct (p x); cbn [negb].
  - apply Permutation_sym, Permutation_cons_app, Permutation_sym, IH.
  - cbn [app]. now apply perm_skip.
Qed.

Lemma distribute_by_side {R : Type} (idx : JakubeIndex R) (plane : Node)
    (indices : list Z) :
  _nodes idx <> None ->
  forall ci : list Z * list Z,
    fold_left
      (fun ci j =>
         if is_null idx j then ci
         else push_side ci (Hamming.side plane (_get idx j) (_f idx)) j)
      indices ci
    = (fst ci
       ++ filter (fun j => negb (Hamming.side plane (_get idx j) (_f idx)))
            indices,
       snd ci
       ++ filter (fun j => Hamming.side plane (_get idx j) (_f idx)) indices).
Proof.
  intro Hnodes.
  assert (Hnull : forall j, is_null idx j = false).
  { intro j. unfold is_null. destruct (_nodes idx); [reflexivity|contradiction]. }
  induction indices as [|j indices IH]; intro ci.
  - cbn. rewrite !app_nil_r. now destruct ci.
  - cbn [fold_left filter]. rewrite Hnull, IH. unfold push_side.
    destruct (Hamming.side plane (_get idx j) (_f idx)); cbn [negb fst snd];
      now rewrite <- ?app_assoc.
Qed.

(** X7.  One split attempt sorts the indices by the plane it has just
    chosen: the left list holds, in their order, the indices whose record
    is not on the plane's side, the right list those whose record is, and
    together they are the indices. *)
Theorem split_attempt_partitions :
  forall (R : Type) (RS : Random R) (idx : JakubeIndex R)
         (nodes : list Node) (indices : list Z) (m : Node) (random : R),
    _nodes idx <> None ->
    let r := split_attempt idx nodes indices m random in
    let plane := snd (fst r) in
    fst (fst (fst r))
    = filter (fun j => negb (Hamming.side plane (_get idx j) (_f idx)))
             indices /\
    snd (fst (fst r))
    = filter (fun j => Hamming.side plane (_get idx j) (_f idx)) indices /\
    Permutation (fst (fst (fst r)) ++ snd (fst (fst r))) indices.
Proof.
  intros R RS idx nodes indices m random Hnodes r plane.
  subst plane r. unfold split_attempt.
  destruct (Hamming.create_split nodes (_f idx) random m) as [m' random'].
  cbn [fst snd]. rewrite (distribute_by_side idx m' indices Hnodes).
  cbn [fst snd app]. split; [reflexivity|]. split; [reflexivity|].
  apply filter_partition_perm.
Qed.

Lemma split_attempt_partitions_witness :
  _nodes doctest_index <> None /\
  Permutation
    (fst (fst (fst (split_attempt doctest_index doctest_nodes [0; 1; 2]
                      zero_garbage [31; 29; 28])))
     ++ snd (fst (fst (split_attempt doctest_index doctest_nodes [0; 1; 2]
                         zero_garbage [31; 29; 28]))))
    [0; 1; 2].
Proof.
  assert (H : _nodes doctest_index <> None) by (vm_compute; discriminate).
  split; [exact H|].
  exact (proj2 (proj2 (split_attempt_partitions Replay ReplayRandom
           doctest_index doctest_nodes [0; 1; 2] zero_garbage [31; 29; 28] H))).
Defined.

Lemma push_side_perm (ci : list Z * list Z) (b : bool) (j : Z) (rest : list Z) :
  Permutation (fst (push_side ci b j) ++ snd (push_side ci b j) ++ rest)
              (fst ci ++ snd ci ++ j :: rest).
Proof.
  unfold push_side. destruct b; cbn [fst snd].
  - rewrite <- app_assoc. reflexivity.
  - rewrite <- app_assoc. cbn [app].
    apply Permutation_app_head. apply Permutation_middle.
Qed.

(** X8.  The fallback's coin flips lose and invent nothing: whatever the
    generator answers, the two lists it deals are together a rearrangement
    of the indices. *)
Theorem coin_partition_rearranges :
  forall (R : Type) (RS : Random R) (indices : list Z) (random : R),
    Permutation
      (fst (fst (coin_partition indices random))
       ++ snd (fst (coin_partition indices random)))
      indices.
Proof.
  intros R RS indices random. unfold coin_partition.
  assert (H : forall (l : list Z) (st : (list Z * list Z) * R),
            Permutation
              (fst (fst (fold_left
                 (fun (st : (list Z * list Z) * R) j =>
                    let (b, random') := flip (snd st) in
                    (push_side (fst st) b j, random')) l st))
               ++ snd (fst (fold_left
                 (fun (st : (list Z * list Z) * R) j =>
                    let (b, random') := flip (snd st) in
                    (push_side (fst st) b j, random')) l st)))
              (fst (fst st) ++ snd (fst st) ++ l)).
  { induction l as [|j l IH]; intro st.
    - cbn [fold_left]. now rewrite app_nil_r.
    - cbn [fold_left]. destruct (flip (snd st)) as [b random'].
      rewrite IH. cbn [fst snd]. apply push_side_perm. }
  specialize (H indices (([], []), random)). exact H.
Qed.

(** ** The leaves [_make_tree] makes *)

Section GroupNode.
Context {R : Type} {RS : Random R}.
Variables heap_garbage stack_garbage : Mem.
Variable f : Z.
Hypothesis f_range : 0 <= f <= JAKUBELIB_V_ARRAY_SIZE.

Implicit Type idx : JakubeIndex R.

Lemma set_nodes_twice idx (m m' : option Mem) :
  set_nodes m' (set_nodes m idx) = set_nodes m' idx.
Proof. now destruct idx. Qed.

Lemma arena_store_some idx (m : Mem) (i off x : Z) :
  _nodes idx = Some m ->
  arena_store idx i off x
  = set_nodes (Some (store m (node_offset (_s idx) i + off) x)) idx.
Proof. intro H. unfold arena_store. now rewrite H. Qed.

(** The loop [m->children[i] = indices[i]] on the arena. *)
Lemma group_stores (item : Z) (l : list Z) (n : nat) :
  forall (s : nat) idx (m : Mem),
    _nodes idx = Some m ->
    exists m',
      fold_left
        (fun st i =>
           arena_store st item (offsetof_children / 4 + Z.of_nat i) (nth i l 0))
        (seq s n) idx
      = set_nodes (Some m') idx /\
      forall a,
        m' a =
        if (node_offset (_s idx) item + 1 + Z.of_nat s <=? a)
           && (a <? node_offset (_s idx) item + 1 + Z.of_nat s + Z.of_nat n)
        then nth (Z.to_nat (a - node_offset (_s idx) item - 1)) l 0
        else m a.
Proof.
  induction n as [|n IH]; intros s idx m Hm.
  - exists m. cbn [seq fold_left]. split.
    + destruct idx; cbn in *. now subst.
    + intro a.
      destruct ((node_offset (_s idx) item + 1 + Z.of_nat s <=? a)
                && (a <? node_offset (_s idx) item + 1 + Z.of_nat s + Z.of_nat 0))
        eqn:E; [|reflexivity].
      apply andb_true_iff in E. destruct E as [E1 E2].
      apply Z.leb_le in E1. apply Z.ltb_lt in E2. lia.
  - cbn [seq fold_left].
    rewrite (arena_store_some idx m item _ _ Hm).
    set (m1 := store m (node_offset (_s idx) item
                        + (offsetof_children / 4 + Z.of_nat s))
                 (nth s l 0)).
    destruct (IH (S s) (set_nodes (Some m1) idx) m1 eq_refl)
      as (m' & Heq & Hm').
    exists m'. split; [now rewrite Heq, set_nodes_twice|].
    intro a. rewrite Hm'. members.
    set (base := node_offset (_s idx) item).
    destruct ((base + 1 + Z.of_nat (S s) <=? a)
              && (a <? base + 1 + Z.of_nat (S s) + Z.of_nat n)) eqn:E1;
    destruct ((base + 1 + Z.of_nat s <=? a)
              && (a <? base + 1 + Z.of_nat s + Z.of_nat (S n))) eqn:E2;
      try reflexivity.
    + apply andb_true_iff in E1. destruct E1 as [A B].
      apply Z.leb_le in A. apply Z.ltb_lt in B.
      apply andb_false_iff in E2. destruct E2 as [C|C];
        [apply Z.leb_gt in C | apply Z.ltb_ge in C]; lia.
    + apply andb_true_iff in E2. destruct E2 as [A B].
      apply Z.leb_le in A. apply Z.ltb_lt in B.
      assert (Ha : a = base + (1 + Z.of_nat s)).
      { apply andb_false_iff in E1. destruct E1 as [C|C];
          [apply Z.leb_gt in C | apply Z.ltb_ge in C]; lia. }
      unfold m1, store. change (offsetof_children / 4) with 1.
      fold base. subst a. rewrite Z.eqb_refl.
      f_equal. lia.
    + unfold m1, store. change (offsetof_children / 4) with 1. fold base.
      destruct (a =? base + (1 + Z.of_nat s)) eqn:E3; [|reflexivity].
      apply Z.eqb_eq in E3.
      apply andb_false_iff in E2. destruct E2 as [C|C];
        [apply Z.leb_gt in C | apply Z.ltb_ge in C]; lia.
Qed.

(** X9.  Group nodes.  A non-root call of [_make_tree] on a list of at
    most [K] indices (other than exactly one) appends one record to the
    arena and returns its index: the record's [n_descendants] is the length
    of the list, the ids the traversal reads out of it are the list itself,
    every record that was there before is unchanged, and the generator is
    not consulted. *)
Theorem make_tree_leaves :
  forall (fuel : nat) (indices : list Z) idx,
    unbuilt_inv f idx ->
    0 <= _n_nodes idx <= _nodes_size idx -> _n_nodes idx < INT_MAX ->
    0 <= _K idx <= f + 2 ->
    Z.of_nat (length indices) <= _K idx -> length indices <> 1%nat ->
    exists idx',
      _make_tree heap_garbage stack_garbage (S fuel) indices false idx
      = Done (_n_nodes idx, idx') /\
      _n_nodes idx' = _n_nodes idx + 1 /\
      _n_items idx' = _n_items idx /\
      _random idx' = _random idx /\
      n_descendants (_get idx' (_n_nodes idx)) = Z.of_nat (length indices) /\
      group_ids (_get idx' (_n_nodes idx)) = indices /\
      forall i k, 0 <= i < _n_nodes idx -> 0 <= k < 3 + f ->
                  _get idx' i k = _get idx i k.
Proof.
  intros fuel indices idx Hinv Hnn Hmax HK Hlen Hne.
  unfold INT_MAX in Hmax.
  pose proof f_range as Hf. unfold JAKUBELIB_V_ARRAY_SIZE in Hf.
  cbn [_make_tree].
  assert (E1 : (Z.of_nat (length indices) =? 1) = false)
    by (apply Z.eqb_neq; lia).
  rewrite E1. cbn [andb].
  rewrite (to_size_t_id (_K idx)) by lia.
  assert (E2 : (Z.of_nat (length indices) <=? _K idx) = true)
    by (apply Z.leb_le; lia).
  rewrite E2. cbn [andb negb].
  unfold make_group.
  rewrite (to_int_id (_n_nodes idx + 1)) by lia.
  destruct (allocate_size_spec heap_garbage f f_range idx (_n_nodes idx + 1)
              Hinv ltac:(lia)) as (m1 & N & Ha & HN & HN' & Hm1).
  rewrite Ha. members.
  rewrite (to_int_id (_n_nodes idx + 1)) by lia.
  rewrite (to_int_id (Z.of_nat (length indices))) by lia.
  rewrite (arena_store_some
             (set_n_nodes (_n_nodes idx + 1)
                (set_nodes_size N (set_nodes (Some m1) idx)))
             m1 (_n_nodes idx) 0 _ eq_refl).
  members.
  set (item := _n_nodes idx).
  set (base := node_offset (_s idx) item).
  set (m2 := store m1 (base + 0) (Z.of_nat (length indices))).
  set (idx3 := set_nodes (Some m2)
                 (set_n_nodes (item + 1)
                    (set_nodes_size N (set_nodes (Some m1) idx)))).
  destruct (group_stores item indices (length indices) 0 idx3 m2 eq_refl)
    as (m' & Heq & Hm').
  rewrite Heq. eexists. split; [reflexivity|].
  subst idx3. members.
  change (node_offset (_s idx) item) with base in Hm'.
  assert (Hbase : base = (3 + f) * item)
    by (unfold base; apply (node_offset_inv f idx item Hinv)).
  assert (Hg : forall i, _get (set_nodes (Some m')
                 (set_nodes (Some m2)
                    (set_n_nodes (item + 1)
                       (set_nodes_size N (set_nodes (Some m1) idx))))) i
               = fun k => m' ((3 + f) * i + k)).
  { intro i. unfold _get, get_node_ptr, arena. members.
    now rewrite (node_offset_inv f idx i Hinv). }
  split; [reflexivity|]. split; [reflexivity|]. split; [reflexivity|].
  split; [|split].
  - unfold n_descendants. rewrite Hg, Hm', <- Hbase.
    destruct ((base + 1 + Z.of_nat 0 <=? base + 0)
              && (base + 0 <? base + 1 + Z.of_nat 0
                              + Z.of_nat (length indices))) eqn:E.
    + apply andb_true_iff in E. destruct E as [E _]. apply Z.leb_le in E. lia.
    + unfold m2, store. now rewrite Z.eqb_refl.
  - unfold group_ids.
    assert (Hd : n_descendants (_get (set_nodes (Some m')
                 (set_nodes (Some m2)
                    (set_n_nodes (item + 1)
                       (set_nodes_size N (set_nodes (Some m1) idx))))) item)
                 = Z.of_nat (length indices)).
    { unfold n_descendants. rewrite Hg, Hm', <- Hbase.
      destruct ((base + 1 + Z.of_nat 0 <=? base + 0)
                && (base + 0 <? base + 1 + Z.of_nat 0
                                + Z.of_nat (length indices))) eqn:E.
      + apply andb_true_iff in E. destruct E as [E _]. apply Z.leb_le in E. lia.
      + unfold m2, store. now rewrite Z.eqb_refl. }
    rewrite Hd, Nat2Z.id.
    etransitivity; [|apply (read_back indices)].
    apply map_ext_in. intros k Hk. apply in_seq in Hk.
    unfold children. rewrite Hg, Hm', <- Hbase.
    change (offsetof_children / 4) with 1.
    destruct ((base + 1 + Z.of_nat 0 <=? base + (1 + Z.of_nat k))
              && (base + (1 + Z.of_nat k) <? base + 1 + Z.of_nat 0
                                + Z.of_nat (length indices))) eqn:E.
    + f_equal. lia.
    + apply andb_false_iff in E. destruct E as [E|E];
        [apply Z.leb_gt in E | apply Z.ltb_ge in E]; lia.
  - intros i k Hi Hk. rewrite Hg.
    unfold _get, get_node_ptr, arena.
    rewrite (node_offset_inv f idx i Hinv).
    assert (Hlt : (3 + f) * i + k < base).
    { rewrite Hbase.
      assert ((3 + f) * (i + 1) <= (3 + f) * item)
        by (apply Z.mul_le_mono_nonneg_l; lia). lia. }
    assert (Hpos : 0 <= (3 + f) * i) by (apply Z.mul_nonneg_nonneg; lia).
    rewrite Hm'.
    destruct ((base + 1 + Z.of_nat 0 <=? (3 + f) * i + k)
              && ((3 + f) * i + k <? base + 1 + Z.of_nat 0
                                + Z.of_nat (length indices))) eqn:E.
    + apply andb_true_iff in E. destruct E as [E _]. apply Z.leb_le in E. lia.
    + unfold m2, store.
      destruct ((3 + f) * i + k =? base + 0) eqn:E3;
        [apply Z.eqb_eq in E3; lia|].
      assert (Hcap : (3 + f) * item <= (3 + f) * _nodes_size idx)
        by (apply Z.mul_le_mono_nonneg_l; lia).
      fold (arena idx). apply Hm1. lia.
Qed.

End GroupNode.

Lemma make_tree_leaves_witness :
  (0 <= 3 <= JAKUBELIB_V_ARRAY_SIZE) /\
  exists idx' : JakubeIndex Replay,
    _make_tree zero_garbage zero_garbage 1 [0; 2] false
      (set_n_nodes 3 three_word_index)
    = Done (3, idx') /\
    group_ids (_get idx' 3) = [0; 2].
Proof.
  assert (H : 0 <= 3 <= JAKUBELIB_V_ARRAY_SIZE)
    by (unfold JAKUBELIB_V_ARRAY_SIZE; lia).
  split; [exact H|].
  destruct (make_tree_leaves (R := Replay) zero_garbage zero_garbage 3 H
              0%nat [0; 2] (set_n_nodes 3 three_word_index))
    as (idx' & Hrun & _ & _ & _ & _ & Hids & _).
  - vm_compute. repeat split; congruence.
  - vm_compute. split; congruence.
  - vm_compute. reflexivity.
  - vm_compute. split; congruence.
  - vm_compute. congruence.
  - cbn. lia.
  - exists idx'. split; [exact Hrun | exact Hids].
Defined.

(** ** The life cycle of an index *)

Section LifeCycle.
Context {R : Type} {RS : Random R}.
Variables heap_garbage stack_garbage : Mem.

Implicit Type idx : JakubeIndex R.

Lemma load_ok_built (os : OS) (filename : string) idx (B : JakubeIndex R) :
  load stack_garbage os filename idx = (Ok, B) -> _built B = true.
Proof. intro H. exact (proj1 (load_ok_shape _ _ _ _ _ H)). Qed.

Lemma build_ok_built (fuel : nat) (q : Z) idx (B : JakubeIndex R) :
  build heap_garbage stack_garbage fuel q idx = Done (Ok, B) ->
  _built B = true.
Proof.
  unfold build. destruct (_built idx); [discriminate|].
  destruct (_n_items idx =? 0); [discriminate|].
  destruct (build_trees _ _ _ _ _); [|discriminate].
  intro H. inversion H. reflexivity.
Qed.

(** X11.  An index that [load] or [build] has reported ready refuses
    [add_item] and a second [build], each with its message, and is left
    exactly as it was. *)
Theorem ready_index_refuses_changes :
  forall (B : JakubeIndex R),
    (exists os filename idx,
        load stack_garbage os filename idx = (Ok, B)) \/
    (exists fuel q idx,
        build heap_garbage stack_garbage fuel q idx = Done (Ok, B)) ->
    forall (item : Z) (w : list Z) (fuel : nat) (q : Z),
      add_item heap_garbage item w B
      = (Error "Index already built, cannot add more items", B) /\
      build heap_garbage stack_garbage fuel q B
      = Done (Error "Index already built", B).
Proof.
  intros B Hready item w fuel q.
  assert (Hb : _built B = true).
  { destruct Hready as [(os & fn & idx & H)|(fuel0 & q0 & idx & H)].
    - exact (load_ok_built os fn idx B H).
    - exact (build_ok_built fuel0 q0 idx B H). }
  unfold add_item, build. rewrite Hb. split; reflexivity.
Qed.

(** X12.  [unload] on an index whose block it releases with the matching
    call (no block; a heap block and not built; a mapping and built):
    it returns with the index empty, no items, no trees, no block, no
    descriptor, not built, with dimension, [K] and generator kept.
    Unloading the empty index again changes nothing, a [build] right after
    is refused for want of items, and a query answers two empty lists. *)
Theorem unload_empties :
  forall idx,
    release_mismatch idx = None ->
    exists E,
      unload idx = (Ok, E) /\
      unload E = (Ok, E) /\
      get_n_items E = 0 /\
      get_n_trees E = 0 /\
      _nodes E = None /\
      _built E = false /\
      _fd E = 0 /\
      _f E = _f idx /\
      _K E = _K idx /\
      _random E = _random idx /\
      (forall (fuel : nat) (q : Z),
         build heap_garbage stack_garbage fuel q E
         = Done (Error "No items added", E)) /\
      (forall (fuel : nat) (w : list Z) (n search_k : Z),
         length w = Z.to_nat (_f idx) ->
         get_nns_by_vector stack_garbage (S fuel) E w n search_k
         = Done ([], [])).
Proof.
  intros idx Hrel. eexists. split; [exact (unload_spec idx Hrel)|].
  split; [rewrite unload_spec by reflexivity; reflexivity|]. members.
  split; [reflexivity|].
  split; [vm_compute; reflexivity|].
  split; [reflexivity|]. split; [reflexivity|]. split; [reflexivity|].
  split; [reflexivity|]. split; [reflexivity|]. split; [reflexivity|].
  split.
  - intros fuel q. unfold build. members. reflexivity.
  - intros fuel w n sk _. unfold get_nns_by_vector.
    now rewrite query_without_roots.
Qed.

(** X13.  [build(q)] with [q <= 0] on an unbuilt index that has items
    returns at once: it reports success, marks the index built, sets
    [n_nodes] to [n_items] and adds no tree; the records are untouched, and
    when the index had no roots every query answers two empty lists. *)
Theorem build_without_trees :
  forall idx (q : Z) (fuel : nat),
    _built idx = false -> _n_items idx <> 0 -> q <= 0 ->
    exists B,
      build heap_garbage stack_garbage fuel q idx = Done (Ok, B) /\
      _built B = true /\
      _n_nodes B = _n_items idx /\
      _n_items B = _n_items idx /\
      _roots B = _roots idx /\
      _random B = _random idx /\
      (forall i, get_item B i = get_item idx i) /\
      (_roots idx = [] ->
       forall (fuel' : nat) (w : list Z) (n search_k : Z),
         get_nns_by_vector stack_garbage (S fuel') B w n search_k
         = Done ([], [])).
Proof.
  intros idx q fuel Hb Hn Hq.
  exists (set_built true (set_n_nodes (_n_items idx) idx)).
  unfold build. rewrite Hb. apply Z.eqb_neq in Hn. rewrite Hn.
  replace (Z.to_nat q) with 0%nat by lia. cbn [build_trees]. members.
  split; [reflexivity|]. split; [reflexivity|]. split; [reflexivity|].
  split; [reflexivity|]. split; [reflexivity|]. split; [reflexivity|].
  split; [reflexivity|].
  intros Hr fuel' w n sk. unfold get_nns_by_vector.
  now rewrite query_without_roots.
Qed.

(** X14.  [unbuild] of a built index succeeds: the trees are gone,
    [n_nodes] is back at [n_items], and every stored vector and distance
    is what it was. *)
Theorem unbuild_keeps_items :
  forall B : JakubeIndex R,
    _built B = true ->
    exists idx,
      unbuild B = (Ok, idx) /\
      _built idx = false /\ _roots idx = [] /\
      _n_nodes idx = _n_items B /\ _n_items idx = _n_items B /\
      (forall i, get_item idx i = get_item B i) /\
      (forall i j, get_distance idx i j = get_distance B i j).
Proof.
  intros B Hb. eexists. unfold unbuild. rewrite Hb. cbn [negb].
  split; [reflexivity|]. members.
  split; [reflexivity|]. split; [reflexivity|]. split; [reflexivity|].
  split; [reflexivity|]. split; [reflexivity|]. reflexivity.
Qed.

End LifeCycle.

Lemma build_without_trees_witness :
  _built doctest_index = false /\ _n_items doctest_index <> 0 /\ 0 <= 0 /\
  exists B,
    build zero_garbage zero_garbage 0 0 doctest_index = Done (Ok, B) /\
    _built B = true /\ _n_nodes B = _n_items doctest_index.
Proof.
  assert (H1 : _built doctest_index = false) by (vm_compute; reflexivity).
  assert (H2 : _n_items doctest_index <> 0) by (vm_compute; discriminate).
  assert (H3 : 0 <= 0) by lia.
  split; [exact H1|]. split; [exact H2|]. split; [exact H3|].
  destruct (build_without_trees zero_garbage zero_garbage doctest_index 0 0
              H1 H2 H3) as (B & Hrun & Hb & Hnn & _).
  exists B. split; [exact Hrun|]. split; [exact Hb | exact Hnn].
Defined.

Lemma ready_index_refuses_changes_witness :
  (exists os filename idx,
      load zero_garbage os filename idx = (Ok, forest_index)) /\
  add_item zero_garbage 5 [9] forest_index
  = (Error "Index already built, cannot add more items", forest_index).
Proof.
  assert (H : exists os filename idx,
             load zero_garbage os filename idx = (Ok, forest_index)).
  { exists forest_os, "forest"%string, (new_index 1).
    vm_compute. reflexivity. }
  split; [exact H|].
  exact (proj1 (ready_index_refuses_changes zero_garbage zero_garbage
                  forest_index (or_introl H) 5 [9] 0%nat 0)).
Defined.

Lemma unload_empties_witness :
  release_mismatch doctest_index = None /\
  exists E,
    unload doctest_index = (Ok, E) /\ _nodes E = None /\ get_n_items E = 0.
Proof.
  assert (H : release_mismatch doctest_index = None)
    by (vm_compute; reflexivity).
  split; [exact H|].
  destruct (unload_empties zero_garbage zero_garbage doctest_index H)
    as (E & Hrun & _ & Hn & _ & Hnodes & _).
  exists E. split; [exact Hrun|]. split; [exact Hnodes | exact Hn].
Defined.

Lemma unbuild_keeps_items_witness :
  _built forest_index = true /\
  exists idx,
    unbuild forest_index = (Ok, idx) /\
    _roots idx = [] /\
    (forall i, get_item idx i = get_item forest_index i).
Proof.
  assert (H : _built forest_index = true) by (vm_compute; reflexivity).
  split; [exact H|].
  destruct (unbuild_keeps_items (R := Replay) forest_index H)
    as (idx & Hrun & _ & Hroots & _ & _ & Hitems & _).
  exists idx. split; [exact Hrun|]. split; [exact Hroots | exact Hitems].
Defined.

(** ** Files *)

Section Files.
Context {R : Type} {RS : Random R}.
Variable stack_garbage : Mem.

Implicit Type idx : JakubeIndex R.

Lemma roots_read_back (h0 h1 h2 h3 h4 h5 : Z) (roots rest : list Z) :
  map (fun k => nth (6 + k) (h0 :: h1 :: h2 :: h3 :: h4 :: h5 :: roots ++ rest) 0)
      (seq 0 (length roots))
  = roots.
Proof.
  etransitivity; [|apply (read_back roots)].
  apply map_ext_in. intros k Hk. apply in_seq in Hk.
  cbn [Nat.add nth]. apply app_nth1. lia.
Qed.

(** X15.  The header survives a round trip.  [save] of a built index
    whose block holds its records, to a writable path, succeeds and touches
    no other file; [load] of that file into an index of the same dimension
    whose own block [unload] can release succeeds and reads back
    [n_items], [n_nodes], the capacity, [K] and the list of roots as they
    were saved, and marks the index built. *)
Theorem save_load_header_roundtrip :
  forall (os : OS) (filename : string) (A B0 : JakubeIndex R),
    _built A = true -> arena_backed A -> can_write os filename = true ->
    Z.of_nat (length (_roots A)) <= INT_MAX ->
    release_mismatch B0 = None -> _f B0 = _f A ->
    0 < _n_nodes A -> 0 < _s B0 * _n_nodes A < 2 ^ 47 ->
    exists (os' : OS) (B : JakubeIndex R),
      save os filename A = (Ok, os') /\
      load stack_garbage os' filename B0 = (Ok, B) /\
      (forall p, String.eqb p filename = false -> files os' p = files os p) /\
      _n_items B = _n_items A /\ _n_nodes B = _n_nodes A /\
      _nodes_size B = _nodes_size A /\ _K B = _K A /\
      _roots B = _roots A /\ _built B = true /\ _fd B = next_fd os.
Proof.
  intros os filename A B0 Hb _ Hw Hlen Hrel Hf Hnn Hsize.
  unfold INT_MAX in Hlen.
  unfold save. rewrite Hb, Hw. cbn [negb].
  rewrite (to_int_id (Z.of_nat (length (_roots A)))) by lia.
  rewrite Nat2Z.id, firstn_all.
  eexists. eexists. split; [reflexivity|].
  unfold load. rewrite (unload_spec B0 Hrel).
  unfold write_file. cbn [files next_fd].
  rewrite String.eqb_refl. members. cbn [app].
  match goal with |- context [nth 0%nat ?l _] => set (file := l) end.
  assert (E0 : forall d, nth 0 file d = _f A) by reflexivity.
  assert (E1 : forall d, nth 1 file d = _n_items A) by reflexivity.
  assert (E2 : forall d, nth 2 file d = _n_nodes A) by reflexivity.
  assert (E3 : forall d, nth 3 file d = _nodes_size A) by reflexivity.
  assert (E4 : forall d, nth 4 file d = _K A) by reflexivity.
  assert (E5 : forall d, nth 5 file d = Z.of_nat (length (_roots A)))
    by reflexivity.
  assert (Er : map (fun k => nth (6 + k) file 0) (seq 0 (length (_roots A)))
               = _roots A) by apply roots_read_back.
  rewrite E0, E1, E2, E3, E4, E5, Hf, Z.eqb_refl. cbn [negb].
  destruct (Z.ltb_spec (Z.of_nat (length (_roots A))) 0) as [Hneg|_]; [lia|].
  rewrite Nat2Z.id, Er.
  assert (Hn : to_size_t (_n_nodes A) = _n_nodes A).
  { assert (Hs : 0 < _s B0) by nia.
    assert (Hle : _n_nodes A <= _s B0 * _n_nodes A) by nia.
    apply to_size_t_id. lia. }
  rewrite Hn.
  assert (Hm : mmap_fails (to_size_t (_s B0 * _n_nodes A)) = false).
  { rewrite to_size_t_id by lia. unfold mmap_fails.
    destruct (Z.eqb_spec (_s B0 * _n_nodes A) 0); [lia|].
    destruct (Z.leb_spec (2 ^ 47) (_s B0 * _n_nodes A)); [lia|reflexivity]. }
  rewrite Hm. split; [reflexivity|]. members.
  split; [|repeat (split; [reflexivity|]); reflexivity].
  intros p Hp. now rewrite Hp.
Qed.

(** X16.  [load] of a path that does not exist, on an index whose block
    [unload] can release: it reports that it cannot open the file and
    leaves the index empty (no block, no items, no roots, not built), with
    the failed descriptor -1 in [_fd]; the next [unload] clears it. *)
Theorem load_missing_file :
  forall (os : OS) (filename : string) idx,
    release_mismatch idx = None ->
    files os filename = None ->
    exists I E,
      load stack_garbage os filename idx
      = (Error "Unable to open file for reading", I) /\
      _nodes I = None /\ _n_items I = 0 /\ _roots I = [] /\
      _built I = false /\ _fd I = -1 /\
      unload I = (Ok, E) /\ _fd E = 0.
Proof.
  intros os filename idx Hrel Hnone. eexists. eexists. unfold load.
  rewrite (unload_spec idx Hrel), Hnone.
  split; [reflexivity|]. members.
  split; [reflexivity|]. split; [reflexivity|]. split; [reflexivity|].
  split; [reflexivity|]. split; [reflexivity|].
  split; [rewrite unload_spec by reflexivity; reflexivity | reflexivity].
Qed.

(** X17.  A [load] that fails at the mapping does not unload the index.
    On an index whose block [unload] can release, when a file of the
    index's dimension holds the roots it announces and announces zero
    records, [load] reports "Unable to mmap nodes" with no block and the
    built flag off, but [n_items] and the root list stay as read from the
    file. *)
Theorem load_unmappable_keeps_header :
  forall (os : OS) (filename : string) idx (file : list Z),
    release_mismatch idx = None ->
    files os filename = Some file ->
    nth 0 file 0 = _f idx -> nth 2 file 0 = 0 ->
    0 <= nth 5 file 0 -> 6 + nth 5 file 0 <= Z.of_nat (length file) ->
    exists I,
      load stack_garbage os filename idx = (Error "Unable to mmap nodes", I) /\
      _nodes I = None /\ _built I = false /\ _fd I = 0 /\
      _n_items I = nth 1 file 0 /\
      _roots I
      = map (fun k => nth (6 + k) file 0) (seq 0 (Z.to_nat (nth 5 file 0))).
Proof.
  intros os filename idx file Hrel Hfile Hf Hnn Hroots Hlen.
  eexists. unfold load. rewrite (unload_spec idx Hrel), Hfile. members.
  rewrite (nth_indep file (stack_garbage 0) 0) by lia.
  rewrite (nth_indep file (stack_garbage 1) 0) by lia.
  rewrite Hf, Z.eqb_refl. cbn [negb].
  destruct (Z.ltb_spec (nth 5 file 0) 0) as [Hneg|_]; [lia|].
  rewrite Hnn.
  assert (Hm : mmap_fails (to_size_t (_s idx * to_size_t 0)) = true).
  { change (to_size_t 0) with 0. rewrite Z.mul_0_r. reflexivity. }
  rewrite Hm. split; [reflexivity|]. members.
  repeat (split; [reflexivity|]). reflexivity.
Qed.

End Files.

Lemma save_load_header_roundtrip_witness :
  _built forest_index = true /\ arena_backed forest_index /\
  can_write empty_os "copy" = true /\
  Z.of_nat (length (_roots forest_index)) <= INT_MAX /\
  release_mismatch (new_index 1 : JakubeIndex Replay) = None /\
  _f (new_index 1 : JakubeIndex Replay) = _f forest_index /\
  0 < _n_nodes forest_index /\
  0 < _s (new_index 1 : JakubeIndex Replay) * _n_nodes forest_index < 2 ^ 47 /\
  exists (os' : OS) (B : JakubeIndex Replay),
    save empty_os "copy" forest_index = (Ok, os') /\
    load zero_garbage os' "copy" (new_index 1) = (Ok, B) /\
    _roots B = _roots forest_index.
Proof.
  assert (H1 : _built forest_index = true) by (vm_compute; reflexivity).
  assert (H1' : arena_backed forest_index).
  { split; [vm_compute; discriminate | vm_compute; discriminate]. }
  assert (H2 : can_write empty_os "copy" = true) by reflexivity.
  assert (H3 : Z.of_nat (length (_roots forest_index)) <= INT_MAX)
    by (vm_compute; discriminate).
  assert (H3' : release_mismatch (new_index 1 : JakubeIndex Replay) = None)
    by reflexivity.
  assert (H4 : _f (new_index 1 : JakubeIndex Replay) = _f forest_index)
    by (vm_compute; reflexivity).
  assert (H5 : 0 < _n_nodes forest_index) by (vm_compute; reflexivity).
  assert (H6 : 0 < _s (new_index 1 : JakubeIndex Replay)
                   * _n_nodes forest_index < 2 ^ 47)
    by (vm_compute; split; reflexivity).
  split; [exact H1|]. split; [exact H1'|]. split; [exact H2|].
  split; [exact H3|]. split; [exact H3'|].
  split; [exact H4|]. split; [exact H5|]. split; [exact H6|].
  destruct (save_load_header_roundtrip zero_garbage empty_os "copy"
              forest_index (new_index 1) H1 H1' H2 H3 H3' H4 H5 H6)
    as (os' & B & Hs & Hl & _ & _ & _ & _ & _ & Hr & _).
  exists os', B. split; [exact Hs|]. split; [exact Hl | exact Hr].
Defined.

Lemma load_missing_file_witness :
  release_mismatch forest_index = None /\
  files empty_os "nowhere" = None /\
  exists I : JakubeIndex Replay,
    load zero_garbage empty_os "nowhere" forest_index
    = (Error "Unable to open file for reading", I) /\
    _fd I = -1.
Proof.
  assert (H0 : release_mismatch forest_index = None)
    by (vm_compute; reflexivity).
  assert (H : files empty_os "nowhere" = None) by reflexivity.
  split; [exact H0|]. split; [exact H|].
  destruct (load_missing_file zero_garbage empty_os "nowhere" forest_index
              H0 H)
    as (I & E & Hrun & _ & _ & _ & _ & Hfd & _).
  exists I. split; [exact Hrun | exact Hfd].
Defined.

Lemma load_unmappable_keeps_header_witness :
  release_mismatch (new_index 1 : JakubeIndex Replay) = None /\
  files header_only_os "header" = Some header_only_file /\
  nth 0 header_only_file 0 = _f (new_index 1 : JakubeIndex Replay) /\
  nth 2 header_only_file 0 = 0 /\
  0 <= nth 5 header_only_file 0 /\
  6 + nth 5 header_only_file 0 <= Z.of_nat (length header_only_file) /\
  exists I : JakubeIndex Replay,
    load zero_garbage header_only_os "header" (new_index 1)
    = (Error "Unable to mmap nodes", I) /\
    _n_items I = 5 /\ _roots I = [7; 8].
Proof.
  assert (H0 : release_mismatch (new_index 1 : JakubeIndex Replay) = None)
    by reflexivity.
  assert (H1 : files header_only_os "header" = Some header_only_file)
    by reflexivity.
  assert (H3 : nth 0 header_only_file 0
               = _f (new_index 1 : JakubeIndex Replay)) by reflexivity.
  assert (H5 : nth 2 header_only_file 0 = 0) by reflexivity.
  assert (H4 : 0 <= nth 5 header_only_file 0) by (cbn; lia).
  assert (H2 : 6 + nth 5 header_only_file 0
               <= Z.of_nat (length header_only_file)) by (cbn; lia).
  split; [exact H0|]. split; [exact H1|]. split; [exact H3|].
  split; [exact H5|]. split; [exact H4|]. split; [exact H2|].
  destruct (load_unmappable_keeps_header zero_garbage header_only_os "header"
              (new_index 1) header_only_file H0 H1 H3 H5 H4 H2)
    as (I & Hrun & _ & _ & _ & Hn & Hr).
  exists I. split; [exact Hrun|]. split; [exact Hn | exact Hr].
Defined.

(** ** Answers of a query *)

Lemma StronglySorted_app_order {A : Type} (Rel : A -> A -> Prop)
    (a b : list A) :
  StronglySorted Rel (a ++ b) ->
  forall x y, In x a -> In y b -> Rel x y.
Proof.
  induction a as [|z a IH]; intros Hs x y Hx Hy; [destruct Hx|].
  cbn [app] in Hs. apply StronglySorted_inv in Hs. destruct Hs as [Hs Hall].
  destruct Hx as [->|Hx]; [|exact (IH Hs x y Hx Hy)].
  rewrite Forall_forall in Hall. apply Hall. apply in_or_app. now right.
Qed.

Section Answers.
Context {R : Type}.
Variable idx : JakubeIndex R.
Variable v_node : Node.

(** Every pair the loop emits is an id with its distance to the query. *)
Lemma nns_dist_loop_pairs (l : list Z) :
  forall (last : Z) (x : Z * Z),
    In x (nns_dist_loop idx v_node l last) ->
    fst x = Hamming.distance v_node (_get idx (snd x)) (_f idx).
Proof.
  induction l as [|j rest IH]; intros last x Hx; [destruct Hx|].
  cbn [nns_dist_loop] in Hx.
  destruct (j =? last); [exact (IH last x Hx)|].
  destruct (n_descendants (_get idx j) =? 1); [|exact (IH j x Hx)].
  destruct Hx as [<-|Hx]; [reflexivity | exact (IH j x Hx)].
Qed.

(** What [rank] returns for a list of non-negative candidates: the ids are
    value-node candidates, each with its distance; a value-node candidate
    that is left out comes after all [n] answers in the order (distance,
    id). *)
Lemma rank_best (n : Z) (nns : list Z) :
  Forall (fun j => 0 <= j) nns ->
  let d := fun j => Hamming.distance v_node (_get idx j) (_f idx) in
  let ids := fst (rank idx v_node n nns) in
  let dists := snd (rank idx v_node n nns) in
  dists = map d ids /\
  (forall i, In i ids -> In i nns /\ n_descendants (_get idx i) = 1) /\
  (forall j, In j nns -> n_descendants (_get idx j) = 1 -> ~ In j ids ->
     length ids = Z.to_nat n /\
     forall i, In i ids -> lex_lt (d i, i) (d j, j)).
Proof.
  intros Hpos d ids dists.
  pose proof Hpos as Hpos'. rewrite Forall_forall in Hpos'.
  pose proof (std_sort_perm Z.leb nns) as Hperm0.
  destruct (nns_dist_loop_spec idx v_node (std_sort Z.leb nns) (-1)
              (std_sort_sorted Z.leb Zleb_total Zleb_trans nns))
    as (_ & _ & Hmem).
  { intros x Hx. apply (Permutation_in _ (Permutation_sym Hperm0)) in Hx.
    specialize (Hpos' x Hx). lia. }
  subst ids dists. unfold rank. cbn [fst snd].
  set (nd := nns_dist_loop idx v_node (std_sort Z.leb nns) (-1)) in *.
  set (m := Z.of_nat (length nd)).
  set (p := Z.to_nat (if n <? m then n else m)).
  unfold partial_sort. rewrite firstn_skipn.
  pose proof (std_sort_perm pair_leb nd) as Hperm.
  pose proof (std_sort_sorted pair_leb pair_leb_total pair_leb_trans nd)
    as Hsorted.
  set (sorted := std_sort pair_leb nd) in *.
  assert (Hpair : forall x, In x sorted -> fst x = d (snd x)).
  { intros x Hx. apply (Permutation_in _ (Permutation_sym Hperm)) in Hx.
    exact (nns_dist_loop_pairs _ _ x Hx). }
  split; [|split].
  - rewrite map_map. apply map_ext_in. intros x Hx.
    unfold Hamming.normalized_distance. apply Hpair.
    exact (In_firstn x p sorted Hx).
  - intros i Hi. apply in_map_iff in Hi. destruct Hi as (x & <- & Hx).
    apply In_firstn in Hx.
    apply (Permutation_in _ (Permutation_sym Hperm)) in Hx.
    assert (Hs : In (snd x) (map snd nd)) by now apply in_map.
    apply Hmem in Hs. destruct Hs as (Hin & _ & Hv).
    split; [|exact Hv].
    exact (Permutation_in _ (Permutation_sym Hperm0) Hin).
  - intros j Hj Hv Hout.
    assert (Hjn : In j (map snd nd)).
    { apply Hmem. split; [exact (Permutation_in _ Hperm0 Hj)|].
      split; [|exact Hv]. specialize (Hpos' j Hj). lia. }
    apply in_map_iff in Hjn. destruct Hjn as (x & Hxj & Hx).
    apply (Permutation_in _ Hperm) in Hx.
    rewrite <- (firstn_skipn p sorted) in Hx.
    apply in_app_or in Hx. destruct Hx as [Hx|Hx].
    { exfalso. apply Hout. rewrite <- Hxj. now apply in_map. }
    assert (Hlt : (p < length sorted)%nat).
    { destruct (Nat.lt_ge_cases p (length sorted)) as [H|H]; [exact H|].
      rewrite (skipn_all2 sorted H) in Hx. destruct Hx. }
    assert (Hlen : length sorted = length nd)
      by (symmetry; exact (Permutation_length Hperm)).
    split.
    + rewrite length_map, length_firstn. subst p m.
      destruct (Z.ltb_spec n (Z.of_nat (length nd))); lia.
    + intros i Hi. apply in_map_iff in Hi. destruct Hi as (y & <- & Hy).
      assert (Hyx : pair_leb y x = true).
      { rewrite <- (firstn_skipn p sorted) in Hsorted.
        exact (StronglySorted_app_order _ _ _ Hsorted y x Hy Hx). }
      assert (Hne : snd y <> snd x).
      { intro Heq. apply Hout. rewrite <- Hxj, <- Heq. now apply in_map. }
      pose proof (pair_leb_lex y x Hyx Hne) as Hlex.
      assert (Hxs : In x sorted).
      { rewrite <- (firstn_skipn p sorted). apply in_or_app. now right. }
      pose proof (Hpair y (In_firstn y p sorted Hy)) as Hfy.
      pose proof (Hpair x Hxs) as Hfx.
      unfold lex_lt in *. cbn [fst snd]. rewrite <- Hxj, <- Hfy, <- Hfx.
      exact Hlex.
Qed.

(** The number of candidates never reaches the bound plus the largest
    group a single step can append. *)
Lemma gather_bounded (qv : Mem) (bound : Z) (fuel : nat) :
  forall (q : list (Z * Z)) (nns out : list Z),
    gather fuel idx qv bound q nns = Done out ->
    Z.of_nat (length out)
    < Z.max (Z.of_nat (length nns) + 1) (bound + Z.max 1 (_K idx)).
Proof.
  induction fuel as [|fuel IH]; intros q nns out Hrun; [discriminate|].
  cbn [gather] in Hrun.
  destruct (Z.ltb_spec (Z.of_nat (length nns)) bound) as [Hlt|Hge].
  - destruct (top q) as [[d i]|].
    + destruct ((n_descendants (_get idx i) =? 1) && (i <? _n_items idx)).
      * apply IH in Hrun. rewrite length_app in Hrun. cbn [length] in Hrun.
        lia.
      * destruct (Z.leb_spec (n_descendants (_get idx i)) (_K idx)) as [HK|HK].
        -- apply IH in Hrun. rewrite length_app in Hrun.
           unfold group_ids in Hrun. rewrite length_map, length_seq in Hrun.
           lia.
        -- apply IH in Hrun. lia.
    + inversion Hrun; subst out. lia.
  - inversion Hrun; subst out. lia.
Qed.

End Answers.



(** X19.  [search_k] caps the work of a query: the traversal stops
    gathering as soon as it holds [search_k] candidates, so the number of
    candidates it returns stays below the effective [search_k] plus the
    size [K] of the largest group a last step can append. *)
Theorem candidates_stay_below_search_k :
  forall (R : Type) (idx : JakubeIndex R) (fuel : nat) (qv : Mem)
         (n search_k : Z) (nns : list Z),
    candidates fuel idx qv n search_k = Done nns ->
    Z.of_nat (length nns)
    < effective_search_k idx n search_k + Z.max 1 (_K idx).
Proof.
  intros R idx fuel qv n sk nns Hc. unfold candidates in Hc.
  apply gather_bounded in Hc. cbn [length] in Hc.
  assert (0 <= effective_search_k idx n sk).
  { unfold effective_search_k, to_size_t. apply Z.mod_pos_bound. lia. }
  lia.
Qed.

Lemma candidates_stay_below_search_k_witness :
  candidates 10 forest_index (ptr_of [1]) 1 1 = Done [0] /\
  Z.of_nat (length [0])
  < effective_search_k forest_index 1 1 + Z.max 1 (_K forest_index).
Proof.
  assert (H : candidates 10 forest_index (ptr_of [1]) 1 1 = Done [0])
    by (vm_compute; reflexivity).
  split; [exact H|].
  exact (candidates_stay_below_search_k Replay forest_index 10 (ptr_of [1])
           1 1 [0] H).
Defined.

(** ** The Python binding *)

Section BindingFacts.
Context {R : Type} {RS : Random R}.
Variable heap_garbage : Mem.

(** X20.  Why [add_item] of the binding raises [value_error].  There are
    two reasons only, a vector whose length is not [dims] ("vector has
    incorrect dimensionality") and a built index (the library's message),
    and in both the wrapper is exactly as before.  When the call returns,
    the index was not built, its block was no mapping and the length test
    had passed. *)
Theorem binding_add_item_outcomes :
  forall (item : Z) (vector_like : list Z) (wr : IndexWrapper R),
    match Binding.add_item heap_garbage item vector_like wr with
    | (Returns _, _) =>
        _built (index_ wr) = false /\
        is_mapping (index_ wr) = false /\
        (0 <= dims_ wr ->
         to_int (Z.of_nat (length vector_like)) = dims_ wr)
    | (ValueError msg, wr') =>
        wr' = wr /\
        ((msg = "vector has incorrect dimensionality"%string /\
          0 <= dims_ wr /\
          to_int (Z.of_nat (length vector_like)) <> dims_ wr) \/
         (msg = "Index already built, cannot add more items"%string /\
          _built (index_ wr) = true))
    | (Undef _, wr') =>
        wr' = wr /\ _built (index_ wr) = false /\
        is_mapping (index_ wr) = true
    | (Propagates _, _) => True
    end.
Proof.
  intros item w [dims idx].
  unfold Binding.add_item, Binding.to_vector, add_item,
    Binding.raise_failure.
  cbn [dims_ index_].
  destruct (Z.geb_spec dims 0) as [Hd|Hd];
    destruct (Z.eqb_spec (to_int (Z.of_nat (length w))) dims) as [He|He];
    cbn [andb negb];
    try (split; [reflexivity|]; left; split; [reflexivity|];
         split; [lia | exact He]);
    (destruct (_built idx) eqn:Hb;
     [lazy beta iota zeta; split; [reflexivity|]; right; now split|]);
    (destruct (is_mapping idx) eqn:Hm; lazy beta iota zeta;
     [repeat split; reflexivity|]);
    (split; [reflexivity|]; split; [reflexivity|]; intros H0; lia || exact He).
Qed.

(** X21.  Insert and look up through the binding.  On a wrapper whose
    index is not built, and for an id in [[0, INT_MAX)] and a vector of
    fewer than 2^31 words: whenever [add_item] returns, the vector had
    [dims] words, [get_item] of that id returns the very vector, and the
    wrapper is again one whose index is not built. *)
Theorem binding_add_then_get_item :
  forall (f : Z) (item : Z) (values : list Z) (wr wr' : IndexWrapper R),
    0 <= f <= JAKUBELIB_V_ARRAY_SIZE ->
    dims_ wr = f -> unbuilt_inv f (index_ wr) ->
    valid_id item -> Z.of_nat (length values) < 2 ^ 31 ->
    Binding.add_item heap_garbage item values wr = (Returns tt, wr') ->
    dims_ wr' = f /\ unbuilt_inv f (index_ wr') /\
    length values = Z.to_nat f /\
    Binding.get_item item wr' = values.
Proof.
  intros f item values [dims idx] wr' Hf Hdims Hinv Hid Hshort Hrun.
  cbn [dims_ index_] in *. subst dims.
  pose proof Hf as Hf'. unfold JAKUBELIB_V_ARRAY_SIZE in Hf'.
  unfold Binding.add_item, Binding.to_vector in Hrun.
  cbn [dims_ index_] in Hrun.
  rewrite (to_int_id (Z.of_nat (length values))) in Hrun by lia.
  destruct (Z.geb_spec f 0) as [_|Hneg]; [|lia].
  destruct (Z.eqb_spec (Z.of_nat (length values)) f) as [Hlen|Hlen];
    cbn [andb negb] in Hrun; [|discriminate Hrun].
  assert (Hlen' : length values = Z.to_nat f) by lia.
  destruct (is_mapping idx) eqn:Hm.
  { unfold add_item in Hrun. destruct Hinv as (Hb & _).
    rewrite Hb, Hm in Hrun. discriminate Hrun. }
  destruct (add_item_spec heap_garbage f Hf idx item values Hinv Hm Hid)
    as (idx' & Hadd & Hinv' & Hn & _ & _ & _ & _ & _ & _ & _ & Hv & _).
  rewrite Hadd in Hrun. inversion Hrun; subst wr'; clear Hrun.
  cbn [dims_ index_].
  split; [reflexivity|]. split; [exact Hinv'|]. split; [exact Hlen'|].
  pose proof Hinv' as (_ & Hfi' & _ & _ & Hrange' & _).
  assert (Hget : get_item idx' item = values).
  { rewrite (get_item_words f idx' item (stride_inv f idx' Hinv') Hfi').
    etransitivity; [|apply (read_back values)]. rewrite Hlen'.
    apply map_ext_in. intros k Hk. apply in_seq in Hk.
    rewrite Hv by lia. f_equal. lia. }
  unfold Binding.get_item. cbn [dims_ index_]. rewrite Hget.
  rewrite (to_size_t_id f) by lia.
  rewrite skipn_all2 by (rewrite repeat_length; lia).
  apply app_nil_r.
Qed.

End BindingFacts.

Lemma binding_add_then_get_item_witness :
  (0 <= 1 <= JAKUBELIB_V_ARRAY_SIZE) /\
  dims_ (Binding.new 1 : IndexWrapper Replay) = 1 /\
  unbuilt_inv 1 (index_ (Binding.new 1 : IndexWrapper Replay)) /\
  valid_id 4 /\ Z.of_nat (length [9]) < 2 ^ 31 /\
  Binding.add_item zero_garbage 4 [9] (Binding.new 1)
  = (Returns tt,
     snd (Binding.add_item zero_garbage 4 [9]
            (Binding.new 1 : IndexWrapper Replay))) /\
  Binding.get_item 4
    (snd (Binding.add_item zero_garbage 4 [9]
            (Binding.new 1 : IndexWrapper Replay)))
  = [9].
Proof.
  assert (H1 : 0 <= 1 <= JAKUBELIB_V_ARRAY_SIZE)
    by (unfold JAKUBELIB_V_ARRAY_SIZE; lia).
  assert (H2 : dims_ (Binding.new 1 : IndexWrapper Replay) = 1) by reflexivity.
  assert (H3 : unbuilt_inv 1 (index_ (Binding.new 1 : IndexWrapper Replay)))
    by exact (new_index_inv 1 H1).
  assert (H4 : valid_id 4) by (unfold valid_id, INT_MAX; lia).
  assert (H5 : Z.of_nat (length [9]) < 2 ^ 31) by (cbn; lia).
  assert (H6 : Binding.add_item zero_garbage 4 [9] (Binding.new 1)
               = (Returns tt,
                  snd (Binding.add_item zero_garbage 4 [9]
                         (Binding.new 1 : IndexWrapper Replay))))
    by (vm_compute; reflexivity).
  split; [exact H1|]. split; [exact H2|]. split; [exact H3|].
  split; [exact H4|]. split; [exact H5|]. split; [exact H6|].
  exact (proj2 (proj2 (proj2
           (binding_add_then_get_item zero_garbage 1 4 [9] (Binding.new 1) _
              H1 H2 H3 H4 H5 H6)))).
Defined.

(** ** Seed determinism *)

(** The fallback loop does make these passes: with [k] more iterations
    granted it is where [fallback_passes k] says, and goes on. *)
Lemma fallback_runs_passes {R : Type} {RS : Random R} (k : nat) :
  forall (fuel : nat) (indices : list Z) (ci : list Z * list Z) (random : R),
    fallback (k + fuel) indices ci random
    = fallback fuel indices
        (fst (fallback_passes k indices (ci, random)))
        (snd (fallback_passes k indices (ci, random))).
Proof.
  induction k as [|k IH]; intros fuel indices ci random; [reflexivity|].
  cbn [Nat.add fallback fallback_passes snd].
  rewrite fallback_guard_holds.
  destruct (coin_partition indices random) as [ci' random'] eqn:E.
  apply IH.
Qed.

Lemma fold_left_ext_in {A B : Type} (g h : A -> B -> A) (l : list B) :
  (forall a x, In x l -> g a x = h a x) ->
  forall a, fold_left g l a = fold_left h l a.
Proof.
  induction l as [|x l IH]; intros Hext a; [reflexivity|].
  cbn [fold_left]. rewrite (Hext a x (or_introl eq_refl)).
  apply IH. intros a' y Hy. apply Hext. now right.
Qed.

(** [margin] reads the plane of the split node and one word of the vector,
    a word among the [f] when the plane is a bit index of the vector. *)
Lemma margin_same_vector (n n' : Node) (y y' : Mem) (f : Z) :
  0 <= f <= JAKUBELIB_V_ARRAY_SIZE ->
  same_plane f n n' -> same_vector f y y' ->
  Hamming.margin n y f = Hamming.margin n' y' f.
Proof.
  unfold JAKUBELIB_V_ARRAY_SIZE. intros Hf [Hv Hrange] Hy.
  unfold Hamming.margin. rewrite <- Hv.
  change (sizeof_T * 8) with 32.
  rewrite (to_size_t_id (v n 0)) by lia.
  assert (Hq : 0 <= v n 0 / 32 < f).
  { split; [apply Z.div_pos; lia|].
    apply Z.div_lt_upper_bound; lia. }
  rewrite (to_int_id (v n 0 / 32)) by lia.
  now rewrite (Hy _ Hq).
Qed.

Lemma splits_same_vectors (n n' : Node) (nodes nodes' : list Node) (f : Z) :
  0 <= f <= JAKUBELIB_V_ARRAY_SIZE ->
  same_plane f n n' ->
  Forall2 (fun a b => same_vector f (v a) (v b)) nodes nodes' ->
  Hamming.splits n nodes f = Hamming.splits n' nodes' f.
Proof.
  intros Hf Hp Hnodes. unfold Hamming.splits, Hamming.count_margin.
  rewrite (Forall2_length Hnodes).
  assert (Hc : length (filter (fun it => Hamming.margin n (v it) f) nodes)
               = length (filter (fun it => Hamming.margin n' (v it) f) nodes')).
  { induction Hnodes as [|a b l l' Hab Hl IH]; [reflexivity|].
    cbn [filter]. rewrite (margin_same_vector n n' (v a) (v b) f Hf Hp Hab).
    destruct (Hamming.margin n' (v b) f); cbn [length]; now rewrite IH. }
  now rewrite Hc.
Qed.

Section SameChoices.
Context {R : Type} {RS : Random R}.
Variable f : Z.
Hypothesis f_range : 1 <= f <= JAKUBELIB_V_ARRAY_SIZE.
Hypothesis index_in_range :
  forall (n : Z) (r : R), 0 < n -> 0 <= fst (index n r) < n.

Lemma f_range0 : 0 <= f <= JAKUBELIB_V_ARRAY_SIZE.
Proof. lia. Qed.

Lemma random_tries_same (tries : nat) (nodes nodes' : list Node) :
  Forall2 (fun a b => same_vector f (v a) (v b)) nodes nodes' ->
  forall (n n' : Node) (r : R),
    (tries = 0%nat -> same_plane f n n') ->
    fst (fst (Hamming.random_tries tries nodes f (f * 32) n r))
    = fst (fst (Hamming.random_tries tries nodes' f (f * 32) n' r)) /\
    snd (Hamming.random_tries tries nodes f (f * 32) n r)
    = snd (Hamming.random_tries tries nodes' f (f * 32) n' r) /\
    same_plane f
      (snd (fst (Hamming.random_tries tries nodes f (f * 32) n r)))
      (snd (fst (Hamming.random_tries tries nodes' f (f * 32) n' r))).
Proof.
  intro Hnodes. pose proof f_range as Hf. unfold JAKUBELIB_V_ARRAY_SIZE in Hf.
  induction tries as [|tries IH]; intros n n' r H0.
  - cbn [Hamming.random_tries fst snd]. split; [reflexivity|].
    split; [reflexivity | now apply H0].
  - cbn [Hamming.random_tries].
    rewrite (to_size_t_id (f * 32)) by lia.
    pose proof (index_in_range (f * 32) r ltac:(lia)) as Hb.
    destruct (index (f * 32) r) as [b r']. cbn [fst] in Hb.
    assert (Hp : same_plane f (set_v n 0 (to_int b)) (set_v n' 0 (to_int b))).
    { unfold same_plane. rewrite !v_set_v, to_int_id by lia.
      split; [reflexivity | lia]. }
    rewrite (splits_same_vectors _ _ nodes nodes' f f_range0 Hp Hnodes).
    destruct (Hamming.splits (set_v n' 0 (to_int b)) nodes' f).
    + cbn [fst snd]. split; [reflexivity|]. split; [reflexivity | exact Hp].
    + apply IH. intros _. exact Hp.
Qed.

Lemma brute_force_same (js : list Z) (nodes nodes' : list Node) :
  Forall2 (fun a b => same_vector f (v a) (v b)) nodes nodes' ->
  Forall (fun j => 0 <= j < f * 32) js ->
  forall n n' : Node,
    same_plane f n n' ->
    same_plane f (Hamming.brute_force js nodes f n)
      (Hamming.brute_force js nodes' f n').
Proof.
  intros Hnodes Hjs. induction Hjs as [|j js Hj _ IH]; intros n n' Hp;
    [exact Hp|].
  cbn [Hamming.brute_force].
  assert (Hp' : same_plane f (set_v n 0 j) (set_v n' 0 j)).
  { unfold same_plane. rewrite !v_set_v. split; [reflexivity | exact Hj]. }
  rewrite (splits_same_vectors _ _ nodes nodes' f f_range0 Hp' Hnodes).
  destruct (Hamming.splits (set_v n' 0 j) nodes' f); [exact Hp' | now apply IH].
Qed.

(** [create_split] on the same vectors from the same generator state
    chooses the same plane and leaves the same generator state, whatever
    else the two split nodes hold. *)
Lemma create_split_same (nodes nodes' : list Node) (r : R) (n n' : Node) :
  Forall2 (fun a b => same_vector f (v a) (v b)) nodes nodes' ->
  snd (Hamming.create_split nodes f r n)
  = snd (Hamming.create_split nodes' f r n') /\
  same_plane f (fst (Hamming.create_split nodes f r n))
    (fst (Hamming.create_split nodes' f r n')).
Proof.
  intro Hnodes. pose proof f_range as Hf. unfold JAKUBELIB_V_ARRAY_SIZE in Hf.
  unfold Hamming.create_split.
  assert (Hdim : to_int (f * 8 * sizeof_T) = f * 32).
  { unfold sizeof_T. rewrite to_int_id by lia. lia. }
  rewrite Hdim.
  destruct (random_tries_same Hamming.max_iterations nodes nodes' Hnodes n n' r)
    as (Hfound & Hr & Hp); [discriminate|].
  destruct (Hamming.random_tries Hamming.max_iterations nodes f (f * 32) n r)
    as [[found n1] r1].
  destruct (Hamming.random_tries Hamming.max_iterations nodes' f (f * 32) n' r)
    as [[found' n1'] r1'].
  cbn [fst snd] in *. subst found' r1'.
  destruct found; cbn [fst snd]; split; try reflexivity; try exact Hp.
  apply brute_force_same; [exact Hnodes | | exact Hp].
  apply Forall_forall. intros j Hj. apply in_map_iff in Hj.
  destruct Hj as (k & <- & Hk). apply in_seq in Hk. lia.
Qed.

Variables A B : JakubeIndex R.
Variable indices : list Z.
Hypothesis same_f : _f A = f /\ _f B = f.
Hypothesis same_items :
  forall j, In j indices ->
    is_null A j = false /\ is_null B j = false /\
    same_vector f (v (_get A j)) (v (_get B j)).

Lemma same_nodes :
  Forall2 (fun a b => same_vector f (v a) (v b))
    (map (_get A) (filter (fun j => negb (is_null A j)) indices))
    (map (_get B) (filter (fun j => negb (is_null B j)) indices)).
Proof.
  assert (Hfilter : filter (fun j => negb (is_null B j)) indices
                    = filter (fun j => negb (is_null A j)) indices).
  { apply filter_ext_in. intros j Hj.
    destruct (same_items j Hj) as (HA & HB & _). now rewrite HA, HB. }
  rewrite Hfilter.
  assert (Hsub : forall j,
            In j (filter (fun j => negb (is_null A j)) indices) ->
            same_vector f (v (_get A j)) (v (_get B j))).
  { intros j Hj. apply filter_In in Hj. exact (proj2 (proj2 (same_items j (proj1 Hj)))). }
  revert Hsub.
  generalize (filter (fun j => negb (is_null A j)) indices) as l.
  induction l as [|j l IH]; intro Hsub; [constructor|].
  cbn [map]. constructor; [apply Hsub; now left|].
  apply IH. intros j' Hj'. apply Hsub. now right.
Qed.

(** One split attempt deals the same two lists on both indices. *)
Lemma split_attempt_same (nodes nodes' : list Node) (m m' : Node) (r : R) :
  Forall2 (fun a b => same_vector f (v a) (v b)) nodes nodes' ->
  fst (fst (split_attempt A nodes indices m r))
  = fst (fst (split_attempt B nodes' indices m' r)) /\
  snd (split_attempt A nodes indices m r)
  = snd (split_attempt B nodes' indices m' r).
Proof.
  intro Hnodes. unfold split_attempt.
  destruct same_f as [HfA HfB]. rewrite HfA, HfB.
  destruct (create_split_same nodes nodes' r m m' Hnodes) as [Hr Hp].
  destruct (Hamming.create_split nodes f r m) as [p r1].
  destruct (Hamming.create_split nodes' f r m') as [p' r1'].
  cbn [fst snd] in *. subst r1'. split; [|reflexivity].
  apply fold_left_ext_in. intros ci j Hj.
  destruct (same_items j Hj) as (HA & HB & Hv). rewrite HA, HB.
  unfold Hamming.side.
  now rewrite (margin_same_vector p p' _ _ f f_range0 Hp Hv).
Qed.

Lemma split_attempts_same (attempts : nat) (nodes nodes' : list Node) :
  Forall2 (fun a b => same_vector f (v a) (v b)) nodes nodes' ->
  forall (st st' : (list Z * list Z) * Node * R),
    fst (fst st) = fst (fst st') -> snd st = snd st' ->
    fst (fst (split_attempts attempts A nodes indices st))
    = fst (fst (split_attempts attempts B nodes' indices st')) /\
    snd (split_attempts attempts A nodes indices st)
    = snd (split_attempts attempts B nodes' indices st').
Proof.
  intro Hnodes. induction attempts as [|attempts IH]; intros st st' Hci Hr.
  - cbn [split_attempts]. now split.
  - cbn [split_attempts].
    destruct st as [[ci m] r]. destruct st' as [[ci' m'] r'].
    cbn [fst snd] in Hci, Hr. subst r'.
    destruct (split_attempt_same nodes nodes' m m' r Hnodes) as [Hci1 Hr1].
    destruct (split_attempt A nodes indices m r) as [[ci1 m1] r1] eqn:EA.
    destruct (split_attempt B nodes' indices m' r) as [[ci1' m1'] r1'] eqn:EB.
    cbn [fst snd] in Hci1, Hr1. subst ci1' r1'.
    destruct (Qltb (_split_imbalance (fst ci1) (snd ci1)) (95 # 100)).
    + cbn [fst snd]. now split.
    + apply IH; reflexivity.
Qed.

End SameChoices.


Lemma lcg_index_in_range (n : Z) (r : Lcg) :
  0 < n -> 0 <= fst (index n r) < n.
Proof. intro H. cbn [index LcgRandom fst]. apply Z.mod_pos_bound. exact H. Qed.


(** The choices do follow the seed: on the same items, seed 43 in place
    of seed 42 gives other choices. *)
Lemma seed_changes_the_choices_example :
  root_choices zero_garbage 2
    (snd (add_items zero_garbage doctest_items
            (set_seed 42 (new_index 1 : JakubeIndex Lcg))))
  <> root_choices zero_garbage 2
       (snd (add_items zero_garbage doctest_items
               (set_seed 43 (new_index 1 : JakubeIndex Lcg)))).
Proof. vm_compute. discriminate. Qed.
